(** * The real-time gateway of [server/socket.ts]

    A shallow embedding of the socket.io gateway (authentication middleware,
    [join-server], [join-channel], [send-message], the typing indicators,
    [add-reaction] and [disconnect]) together with [validateSession] of
    [lib/auth], and the properties of the specification checked on it.
    The session functions of [lib/auth] and the HTTP guards built on
    [validateSession] ([middleware/auth], [middleware/adminAuth]) follow,
    with further properties read off the code.

    Layout:
    - strings: room names, JavaScript truthiness;
    - the persistence collaborator: tables as lists of rows, the Prisma
      queries the gateway issues and what each does to the tables;
    - the gateway state: socket objects, their rooms, the emitted events;
    - handlers as terms of a small monad whose [Await] nodes are the
      suspension points of the [async] functions;
    - two semantics of those terms: a run of one handler under a schedule
      (faults of the collaborator, activity of others while suspended), and
      the event loop interleaving many handlers;
    - the theorems. *)

From stdpp Require Import gmap strings list sorting pretty.
From Stdlib Require Import ZArith Lia.

Local Open Scope string_scope.
Local Open Scope list_scope.
Local Open Scope Z_scope.

(** ** Strings *)

(** [if (s)] on a value of type [string | undefined]: [undefined] and the
    empty string are falsy. *)
Definition truthy (o : option string) : bool :=
  match o with
  | None => false
  | Some s => negb (bool_decide (s = EmptyString))
  end.

(** [`server:${serverId}`] and [`channel:${channelId}`]. *)
Definition serverRoom (serverId : string) : string := "server:" +:+ serverId.
Definition channelRoom (channelId : string) : string := "channel:" +:+ channelId.

(** [`${s}`] for [s] of type [string | undefined]. *)
Definition interpolate (o : option string) : string := default "undefined" o.

(** [isChannelRoom r]: [r] starts with ["channel:"]. *)
Definition isChannelRoom (r : string) : bool :=
  String.prefix "channel:" r.

(** ASCII case folding, used only to compare a reason string of the code
    with its lower-case spelling in the specification. *)
Definition lower_ascii (c : Ascii.ascii) : Ascii.ascii :=
  let n := Ascii.nat_of_ascii c in
  if (Nat.leb 65 n && Nat.leb n 90)%bool then Ascii.ascii_of_nat (n + 32)%nat else c.

Fixpoint to_lower (s : string) : string :=
  match s with
  | EmptyString => EmptyString
  | String c s' => String (lower_ascii c) (to_lower s')
  end.

(** ** The persistence collaborator *)

(** Rows.  The Prisma schema is not part of the sources at hand; the fields
    are those the queries of [socket.ts] and [lib/auth] read or write.
    Dates are milliseconds since the epoch. *)

Record UserRow := mkUser {
  user_id : string;
  user_email : string;
  user_username : string;
  user_isAnonymous : bool;
  user_anonymousId : option string;
  user_avatar : option string;
  user_isAdmin : bool }.

Record SessionRow := mkSession {
  session_id : string;
  session_token : string;
  session_userId : string;
  session_expiresAt : Z;
  session_lastUsed : Z }.

Record ServerMemberRow := mkMember {
  member_userId : string;
  member_serverId : string }.

Record ChannelRow := mkChannel {
  channel_id : string;
  channel_name : string;
  channel_type : string;
  channel_topic : option string;
  channel_position : Z;
  channel_serverId : string;
  channel_updatedAt : Z }.

Record MessageRow := mkMessage {
  message_id : string;
  message_content : string;
  message_type : string;
  message_userId : string;
  message_channelId : string;
  message_createdAt : Z }.

Record AttachmentRow := mkAttachment {
  attachment_id : string;
  attachment_messageId : string;
  attachment_url : string }.

Record ReactionRow := mkReaction {
  reaction_id : string;
  reaction_emoji : string;
  reaction_userId : string;
  reaction_messageId : string }.

(** The tables, in insertion order, and the counter the store draws fresh
    primary keys from. *)
Record DB := mkDB {
  users : list UserRow;
  sessions : list SessionRow;
  serverMembers : list ServerMemberRow;
  channels : list ChannelRow;
  messages : list MessageRow;
  attachments : list AttachmentRow;
  reactions : list ReactionRow;
  nextId : N }.

Definition newId (n : N) : string := "c" +:+ pretty n.

Definition set_sessions (f : list SessionRow → list SessionRow) (db : DB) : DB :=
  mkDB (users db) (f (sessions db)) (serverMembers db) (channels db)
       (messages db) (attachments db) (reactions db) (nextId db).
Definition set_channels (f : list ChannelRow → list ChannelRow) (db : DB) : DB :=
  mkDB (users db) (sessions db) (serverMembers db) (f (channels db))
       (messages db) (attachments db) (reactions db) (nextId db).
Definition set_messages (f : list MessageRow → list MessageRow) (db : DB) : DB :=
  mkDB (users db) (sessions db) (serverMembers db) (channels db)
       (f (messages db)) (attachments db) (reactions db) (nextId db).
Definition set_reactions (f : list ReactionRow → list ReactionRow) (db : DB) : DB :=
  mkDB (users db) (sessions db) (serverMembers db) (channels db)
       (messages db) (attachments db) (f (reactions db)) (nextId db).
Definition bump_nextId (db : DB) : DB :=
  mkDB (users db) (sessions db) (serverMembers db) (channels db)
       (messages db) (attachments db) (reactions db) (N.succ (nextId db)).

(** Results of queries with [select] / [include]. *)

(** [select: { id, username, isAnonymous, anonymousId, isAdmin }] *)
Record UserSelect := mkUserSelect {
  sel_id : string;
  sel_username : string;
  sel_isAnonymous : bool;
  sel_anonymousId : option string;
  sel_isAdmin : bool }.

(** [user: { select: { id, username, isAnonymous, anonymousId, avatar } }] *)
Record Author := mkAuthor {
  author_id : string;
  author_username : string;
  author_isAnonymous : bool;
  author_anonymousId : option string;
  author_avatar : option string }.

(** A reaction with [include: { user: { select: { id, username } } }]. *)
Record ReactionView := mkReactionView {
  rv_row : ReactionRow;
  rv_user : option (string * string) }.

(** A message with its includes; [mv_reactions] is [None] where the query
    does not include the reactions ([message.create]). *)
Record MessageView := mkMessageView {
  mv_row : MessageRow;
  mv_user : option Author;
  mv_attachments : list AttachmentRow;
  mv_reactions : option (list ReactionView) }.

(** [select: { id, name, type, topic, position }] *)
Record ChannelSelect := mkChannelSelect {
  cs_id : string;
  cs_name : string;
  cs_type : string;
  cs_topic : option string;
  cs_position : Z }.

(** [session.findUnique({ include: { user: true } })] *)
Record SessionView := mkSessionView {
  sv_row : SessionRow;
  sv_user : option UserRow }.

Definition userById (db : DB) (id : string) : option UserRow :=
  find (λ u, bool_decide (user_id u = id)) (users db).

Definition authorOf (db : DB) (m : MessageRow) : option Author :=
  (λ u, mkAuthor (user_id u) (user_username u) (user_isAnonymous u)
                 (user_anonymousId u) (user_avatar u)) <$> userById db (message_userId m).

Definition viewReaction (db : DB) (r : ReactionRow) : ReactionView :=
  mkReactionView r ((λ u, (user_id u, user_username u)) <$> userById db (reaction_userId r)).

Definition reactionsOf (db : DB) (messageId : string) : list ReactionRow :=
  filter (λ r, reaction_messageId r = messageId) (reactions db).

Definition attachmentsOf (db : DB) (messageId : string) : list AttachmentRow :=
  filter (λ a, attachment_messageId a = messageId) (attachments db).

Definition viewMessage (withReactions : bool) (db : DB) (m : MessageRow) : MessageView :=
  mkMessageView m (authorOf db m) (attachmentsOf db (message_id m))
    (if withReactions then Some (viewReaction db <$> reactionsOf db (message_id m)) else None).

Definition selectChannel (c : ChannelRow) : ChannelSelect :=
  mkChannelSelect (channel_id c) (channel_name c) (channel_type c)
                  (channel_topic c) (channel_position c).

(** Orders of [orderBy]. *)
Definition newerFirst (a b : MessageRow) : Prop := message_createdAt b ≤ message_createdAt a.
Definition byPosition (a b : ChannelRow) : Prop := channel_position a ≤ channel_position b.

Global Instance newerFirst_dec a b : Decision (newerFirst a b) := Z_le_dec _ _.
Global Instance byPosition_dec a b : Decision (byPosition a b) := Z_le_dec _ _.

(** A condition [column: value] of a [where] clause.  The value may be
    [undefined] (a property the object read from does not have), and Prisma
    takes an [undefined] value as no condition on that column. *)
Definition whereEq (value : option string) (column : string) : Prop :=
  match value with
  | Some x => column = x
  | None => True
  end.

Global Instance whereEq_dec value column : Decision (whereEq value column) :=
  match value with
  | Some x => decide (column = x)
  | None => left I
  end.

(** The queries the gateway and [validateSession] issue, indexed by the type
    of their result.  The [userId] the gateway passes is what
    [socket.user.userId] reads, which may be [undefined]. *)
Inductive Prisma : Type → Type :=
  (* prisma.serverMember.findFirst({ where: { userId, serverId } }) *)
  | ServerMemberFindFirst (userId : option string) (serverId : string)
      : Prisma (option ServerMemberRow)
  (* prisma.channel.findMany({ where: { serverId }, orderBy: { position: 'asc' }, select }) *)
  | ChannelFindMany (serverId : string) : Prisma (list ChannelSelect)
  (* prisma.channel.findFirst({ where: { id, server: { members: { some: { userId } } } } }) *)
  | ChannelFindFirst (channelId : string) (userId : option string) : Prisma (option ChannelRow)
  (* prisma.message.findMany({ where: { channelId }, include, orderBy: { createdAt: 'desc' }, take }) *)
  | MessageFindMany (channelId : string) (take : nat) : Prisma (list MessageView)
  (* prisma.message.create({ data: { content, type, userId, channelId }, include }) *)
  | MessageCreate (content type : string) (userId : option string) (channelId : string)
      : Prisma MessageView
  (* prisma.channel.update({ where: { id }, data: { updatedAt } }) *)
  | ChannelUpdate (channelId : string) (updatedAt : Z) : Prisma unit
  (* prisma.reaction.findFirst({ where: { userId, messageId, emoji } }) *)
  | ReactionFindFirst (userId : option string) (messageId emoji : string)
      : Prisma (option ReactionRow)
  (* prisma.reaction.delete({ where: { id } }) *)
  | ReactionDelete (id : string) : Prisma unit
  (* prisma.reaction.create({ data: { userId, messageId, emoji } }) *)
  | ReactionCreate (userId : option string) (messageId emoji : string) : Prisma unit
  (* prisma.reaction.findMany({ where: { messageId }, include }) *)
  | ReactionFindMany (messageId : string) : Prisma (list ReactionView)
  (* prisma.session.findUnique({ where: { token }, include: { user: true } }) *)
  | SessionFindUnique (token : string) : Prisma (option SessionView)
  (* prisma.session.delete({ where: { id } }) *)
  | SessionDelete (id : string) : Prisma unit
  (* prisma.session.update({ where: { id }, data: { lastUsed } }) *)
  | SessionUpdate (id : string) (lastUsed : Z) : Prisma unit
  (* prisma.user.findUnique({ where: { id }, select }) *)
  | UserFindUnique (id : string) : Prisma (option UserSelect).

(** [server: { members: { some: { userId } } }]: the server the channel
    belongs to has a membership row that meets the condition on [userId]
    (any row at all when [userId] is [undefined]). *)
Definition hasAccess (db : DB) (userId : option string) (c : ChannelRow) : bool :=
  bool_decide (Exists (λ m, member_serverId m = channel_serverId c
                            ∧ whereEq userId (member_userId m))
                      (serverMembers db)).

(** The rows the [where] clauses of the gateway select. *)
Definition memberRow (db : DB) (userId : option string) (serverId : string)
    : option ServerMemberRow :=
  find (λ m, bool_decide (whereEq userId (member_userId m) ∧ member_serverId m = serverId))
       (serverMembers db).

Definition accessibleChannel (db : DB) (channelId : string) (userId : option string)
    : option ChannelRow :=
  find (λ ch, bool_decide (channel_id ch = channelId) && hasAccess db userId ch) (channels db).

Definition channelMessages (db : DB) (channelId : string) : list MessageRow :=
  filter (λ m, message_channelId m = channelId) (messages db).

Definition reactionRow (db : DB) (userId : option string) (messageId emoji : string)
    : option ReactionRow :=
  find (λ r, bool_decide (whereEq userId (reaction_userId r) ∧ reaction_messageId r = messageId
                          ∧ reaction_emoji r = emoji)) (reactions db).

Definition sessionRow (db : DB) (token : string) : option SessionRow :=
  find (λ s, bool_decide (session_token s = token)) (sessions db).

Definition touchChannel (t : Z) (c : ChannelRow) : ChannelRow :=
  mkChannel (channel_id c) (channel_name c) (channel_type c) (channel_topic c)
            (channel_position c) (channel_serverId c) t.

Definition touchSession (t : Z) (s : SessionRow) : SessionRow :=
  mkSession (session_id s) (session_token s) (session_userId s) (session_expiresAt s) t.

(** What a query answers and does to the tables at time [now]; [None] is a
    rejected promise.  [update] and [delete] reject when no row has the
    given key; [create] rejects when the required [userId] is [undefined]. *)
Definition exec (now : Z) {R} (q : Prisma R) (db : DB) : option (R * DB) :=
  match q in Prisma R return option (R * DB) with
  | ServerMemberFindFirst u s =>
      Some (memberRow db u s, db)
  | ChannelFindMany s =>
      Some (selectChannel <$>
              merge_sort byPosition (filter (λ c, channel_serverId c = s) (channels db)), db)
  | ChannelFindFirst c u =>
      Some (accessibleChannel db c u, db)
  | MessageFindMany c n =>
      Some (viewMessage true db <$> take n (merge_sort newerFirst (channelMessages db c)), db)
  | MessageCreate content type u c =>
      match u with
      | None => None
      | Some userId =>
          let m := mkMessage (newId (nextId db)) content type userId c now in
          let db' := bump_nextId (set_messages (λ l, l ++ [m]) db) in
          Some (viewMessage false db' m, db')
      end
  | ChannelUpdate c t =>
      if bool_decide (Exists (λ ch, channel_id ch = c) (channels db))
      then Some (tt, set_channels
                       (fmap (λ ch, if bool_decide (channel_id ch = c)
                                    then touchChannel t ch else ch)) db)
      else None
  | ReactionFindFirst u m e =>
      Some (reactionRow db u m e, db)
  | ReactionDelete id =>
      if bool_decide (Exists (λ r, reaction_id r = id) (reactions db))
      then Some (tt, set_reactions (filter (λ r, reaction_id r ≠ id)) db)
      else None
  | ReactionCreate u m e =>
      match u with
      | None => None
      | Some userId =>
          Some (tt, bump_nextId
                      (set_reactions
                         (λ l, l ++ [mkReaction (newId (nextId db)) e userId m]) db))
      end
  | ReactionFindMany m =>
      Some (viewReaction db <$> reactionsOf db m, db)
  | SessionFindUnique t =>
      Some ((λ s, mkSessionView s (userById db (session_userId s))) <$> sessionRow db t, db)
  | SessionDelete id =>
      if bool_decide (Exists (λ s, session_id s = id) (sessions db))
      then Some (tt, set_sessions (filter (λ s, session_id s ≠ id)) db)
      else None
  | SessionUpdate id t =>
      if bool_decide (Exists (λ s, session_id s = id) (sessions db))
      then Some (tt, set_sessions
                       (fmap (λ s, if bool_decide (session_id s = id)
                                   then touchSession t s else s)) db)
      else None
  | UserFindUnique id =>
      Some ((λ u, mkUserSelect (user_id u) (user_username u) (user_isAnonymous u)
                               (user_anonymousId u) (user_isAdmin u)) <$> userById db id, db)
  end.

(** ** The gateway state *)

Definition SocketId := nat.

(** The object in [socket.user].  [interface SocketUser] declares the key
    of the account as [userId], and that is what the handlers read.  The
    middleware, though, stores in [socket.user] the row that
    [prisma.user.findUnique] selected, which carries the key under [id] and
    has no property [userId]: on such an object [socket.user.userId] reads
    [undefined].  [socketUser_id] is the property [id] of the object,
    [userId] is what [socket.user.userId] reads. *)
Record SocketUser := mkSocketUser {
  socketUser_id : string;
  userId : option string;
  username : string;
  isAnonymous : bool;
  anonymousId : option string;
  isAdmin : bool }.

(** [interface AuthenticatedSocket]: the fields the gateway adds to a socket,
    the rooms the gateway put it in, and whether the transport is open.  The
    room socket.io keeps for each socket under its own id is left out: an id
    is never of the form [server:...] or [channel:...], and no handler
    addresses it. *)
Record Socket := mkSocket {
  user : SocketUser;
  currentServer : option string;
  currentChannel : option string;
  rooms : gset string;
  connected : bool }.

(** [interface JWTPayload] *)
Record JWTPayload := mkJWTPayload {
  jwt_userId : string;
  jwt_email : string;
  jwt_username : string;
  jwt_isAdmin : bool }.

(** Events the server emits. *)
Inductive ServerEvent :=
  | EvError (reason : string)
  | EvServerChannels (chs : list ChannelSelect)
  | EvChannelMessages (ms : list MessageView)
  | EvUserJoined (userId : option string) (username : option string)
  | EvNewMessage (m : MessageView)
  | EvUserTyping (userId : option string) (username : option string)
  | EvUserStopTyping (userId : option string)
  | EvMessageReactionsUpdated (messageId : string) (rs : list ReactionView)
  | EvUserLeft (userId : option string).

(** Events a client sends on an admitted connection. *)
Inductive ClientEvent :=
  | JoinServer (serverId : string)
  | JoinChannel (channelId : string)
  | SendMessage (content : string) (type : option string)
  | TypingStart
  | TypingStop
  | AddReaction (messageId emoji : string).

(** The socket objects and the log of emitted events, oldest first, each
    with the socket it was handed to. *)
Record Gateway := mkGateway {
  sockets : gmap SocketId Socket;
  outbox : list (SocketId * ServerEvent) }.

Definition inRoom (room : string) (s : Socket) : bool :=
  connected s && bool_decide (room ∈ rooms s).

(** The keys of the socket objects. *)
Definition socketIds (g : Gateway) : list SocketId := elements (dom (sockets g)).

(** The open connections subscribed to [room], each once. *)
Definition subscribers (room : string) (g : Gateway) : list SocketId :=
  filter (λ sid, from_option (inRoom room) false (sockets g !! sid) = true) (socketIds g).

(** All open connections. *)
Definition everyone (g : Gateway) : list SocketId :=
  filter (λ sid, from_option connected false (sockets g !! sid) = true) (socketIds g).

Definition push (to : list SocketId) (ev : ServerEvent) (g : Gateway) : Gateway :=
  mkGateway (sockets g) (outbox g ++ ((λ s, (s, ev)) <$> to)).

Definition updSocket (sid : SocketId) (f : Socket → Socket) (g : Gateway) : Gateway :=
  mkGateway (alter f sid (sockets g)) (outbox g).

Definition withServer (v : option string) (s : Socket) : Socket :=
  mkSocket (user s) v (currentChannel s) (rooms s) (connected s).
Definition withChannel (v : option string) (s : Socket) : Socket :=
  mkSocket (user s) (currentServer s) v (rooms s) (connected s).
Definition withRooms (f : gset string → gset string) (s : Socket) : Socket :=
  mkSocket (user s) (currentServer s) (currentChannel s) (f (rooms s)) (connected s).
Definition closed (s : Socket) : Socket :=
  mkSocket (user s) (currentServer s) (currentChannel s) ∅ false.

(** ** Handlers as terms

    The body of an [async] function: synchronous reads and writes of the
    gateway state, reads of the clock, and [await]s of the persistence
    collaborator, whose promise resolves ([Some]) or rejects ([None]).
    [Throw] is an exception on its way to the enclosing [catch]. *)
Inductive Async (A : Type) : Type :=
  | Ret (a : A)
  | Throw
  | Get (k : Gateway → Async A)
  | Put (f : Gateway → Gateway) (k : Async A)
  | Now (k : Z → Async A)
  | Await {R : Type} (q : Prisma R) (k : option R → Async A).

Arguments Ret {A} a.
Arguments Throw {A}.
Arguments Get {A} k.
Arguments Put {A} f k.
Arguments Now {A} k.
Arguments Await {A R} q k.

Fixpoint bind {A B} (m : Async A) (f : A → Async B) : Async B :=
  match m with
  | Ret a => f a
  | Throw => Throw
  | Get k => Get (λ g, bind (k g) f)
  | Put u k => Put u (bind k f)
  | Now k => Now (λ t, bind (k t) f)
  | Await q k => Await q (λ r, bind (k r) f)
  end.

(** [try { body } catch { handler }] *)
Fixpoint tryCatch {A} (body handler : Async A) : Async A :=
  match body with
  | Ret a => Ret a
  | Throw => handler
  | Get k => Get (λ g, tryCatch (k g) handler)
  | Put u k => Put u (tryCatch k handler)
  | Now k => Now (λ t, tryCatch (k t) handler)
  | Await q k => Await q (λ r, tryCatch (k r) handler)
  end.

Global Instance Async_ret : MRet Async := @Ret.
Global Instance Async_bind : MBind Async := λ A B f m, bind m f.

(** [await q]: the value of a resolved promise; a rejected one throws. *)
Definition await {R} (q : Prisma R) : Async R :=
  Await q (λ r, match r with Some x => Ret x | None => Throw end).

Definition now : Async Z := Now Ret.
Definition modify (f : Gateway → Gateway) : Async unit := Put f (Ret tt).
Definition read {X} (f : Gateway → X) : Async X := Get (λ g, Ret (f g)).

(** The socket.io calls of the handlers. *)

(* socket.emit(ev) *)
Definition socketEmit (sid : SocketId) (ev : ServerEvent) : Async unit :=
  modify (push [sid] ev).
(* io.to(room).emit(ev) *)
Definition ioToEmit (room : string) (ev : ServerEvent) : Async unit :=
  modify (λ g, push (subscribers room g) ev g).
(* socket.to(room).emit(ev): the room without the sender *)
Definition socketToEmit (sid : SocketId) (room : string) (ev : ServerEvent) : Async unit :=
  modify (λ g, push (filter (λ s, s ≠ sid) (subscribers room g)) ev g).
(* io.emit(ev) *)
Definition ioEmit (ev : ServerEvent) : Async unit :=
  modify (λ g, push (everyone g) ev g).
(* socket.join(room), socket.leave(room) *)
Definition socketJoin (sid : SocketId) (room : string) : Async unit :=
  modify (updSocket sid (withRooms (λ rs, {[room]} ∪ rs))).
Definition socketLeave (sid : SocketId) (room : string) : Async unit :=
  modify (updSocket sid (withRooms (λ rs, rs ∖ {[room]}))).

(* socket.currentChannel, undefined until assigned *)
Definition channelOf (g : Gateway) (sid : SocketId) : option string :=
  s ← sockets g !! sid; currentChannel s.
Arguments channelOf : simpl never.
Definition getCurrentChannel (sid : SocketId) : Async (option string) :=
  read (λ g, channelOf g sid).
Definition setCurrentChannel (sid : SocketId) (c : string) : Async unit :=
  modify (updSocket sid (withChannel (Some c))).
Definition setCurrentServer (sid : SocketId) (c : string) : Async unit :=
  modify (updSocket sid (withServer (Some c))).

(* socket.user.isAnonymous ? socket.user.anonymousId : socket.user.username *)
Definition displayName (u : SocketUser) : option string :=
  if isAnonymous u then anonymousId u else Some (username u).

(** The gateway once the socket [sid] has left the room of its current
    channel, if it has one, has taken [c] as its current channel and has
    joined the room of [c]: what [join-channel] does between its two
    awaits. *)
Definition entered (sid : SocketId) (c : string) (g : Gateway) : Gateway :=
  updSocket sid (withRooms (λ rs, {[channelRoom c]} ∪ rs))
    (updSocket sid (withChannel (Some c))
       (if truthy (channelOf g sid)
        then updSocket sid
               (withRooms (λ rs, rs ∖ {[channelRoom (interpolate (channelOf g sid))]})) g
        else g)).

(** *** [socket.on('join-server', ...)] *)
Definition joinServer (sid : SocketId) (u : SocketUser) (serverId : string) : Async unit :=
  tryCatch
    (member ← await (ServerMemberFindFirst (userId u) serverId);
     match member with
     | None => socketEmit sid (EvError "Not a member of this server")
     | Some _ =>
         setCurrentServer sid serverId;;
         socketJoin sid (serverRoom serverId);;
         chs ← await (ChannelFindMany serverId);
         socketEmit sid (EvServerChannels chs)
     end)
    (socketEmit sid (EvError "Failed to join server")).

(** *** [socket.on('join-channel', ...)] *)
Definition joinChannel (sid : SocketId) (u : SocketUser) (channelId : string) : Async unit :=
  tryCatch
    (channel ← await (ChannelFindFirst channelId (userId u));
     match channel with
     | None => socketEmit sid (EvError "Channel not found or access denied")
     | Some _ =>
         cur ← getCurrentChannel sid;
         (if truthy cur then socketLeave sid (channelRoom (interpolate cur)) else Ret tt);;
         setCurrentChannel sid channelId;;
         socketJoin sid (channelRoom channelId);;
         msgs ← await (MessageFindMany channelId 50);
         socketEmit sid (EvChannelMessages (reverse msgs));;
         socketToEmit sid (channelRoom channelId) (EvUserJoined (userId u) (displayName u))
     end)
    (socketEmit sid (EvError "Failed to join channel")).

(** *** [socket.on('send-message', ...)] *)
Definition sendMessage (sid : SocketId) (u : SocketUser)
    (content : string) (type : option string) : Async unit :=
  tryCatch
    (cur ← getCurrentChannel sid;
     if negb (truthy cur) then socketEmit sid (EvError "Not in a channel")
     else
       message ← await (MessageCreate content (if truthy type then default EmptyString type else "TEXT")
                                      (userId u) (default EmptyString cur));
       cur' ← getCurrentChannel sid;
       ioToEmit (channelRoom (interpolate cur')) (EvNewMessage message);;
       cur'' ← getCurrentChannel sid;
       t ← now;
       await (ChannelUpdate (default EmptyString cur'') t))
    (socketEmit sid (EvError "Failed to send message")).

(** *** [socket.on('typing-start', ...)], [socket.on('typing-stop', ...)] *)
Definition typingStart (sid : SocketId) (u : SocketUser) : Async unit :=
  cur ← getCurrentChannel sid;
  if truthy cur
  then socketToEmit sid (channelRoom (interpolate cur)) (EvUserTyping (userId u) (displayName u))
  else Ret tt.

Definition typingStop (sid : SocketId) (u : SocketUser) : Async unit :=
  cur ← getCurrentChannel sid;
  if truthy cur
  then socketToEmit sid (channelRoom (interpolate cur)) (EvUserStopTyping (userId u))
  else Ret tt.

(** *** [socket.on('add-reaction', ...)] *)
Definition addReaction (sid : SocketId) (u : SocketUser) (messageId emoji : string) : Async unit :=
  tryCatch
    (existingReaction ← await (ReactionFindFirst (userId u) messageId emoji);
     match existingReaction with
     | Some r => await (ReactionDelete (reaction_id r))
     | None => await (ReactionCreate (userId u) messageId emoji)
     end;;
     rs ← await (ReactionFindMany messageId);
     ioEmit (EvMessageReactionsUpdated messageId rs))
    (socketEmit sid (EvError "Failed to add reaction")).

(** *** [socket.on('disconnect', ...)]

    socket.io has taken the socket out of all its rooms and closed it before
    the listener runs. *)
Definition onDisconnect (sid : SocketId) (u : SocketUser) : Async unit :=
  modify (updSocket sid closed);;
  cur ← getCurrentChannel sid;
  if truthy cur
  then socketToEmit sid (channelRoom (interpolate cur)) (EvUserLeft (userId u))
  else Ret tt.

(** The listener registered for each client event. *)
Definition handle (sid : SocketId) (u : SocketUser) (ev : ClientEvent) : Async unit :=
  match ev with
  | JoinServer serverId => joinServer sid u serverId
  | JoinChannel channelId => joinChannel sid u channelId
  | SendMessage content type => sendMessage sid u content type
  | TypingStart => typingStart sid u
  | TypingStop => typingStop sid u
  | AddReaction messageId emoji => addReaction sid u messageId emoji
  end.

(** ** Authentication ([lib/auth] and the [io.use] middleware) *)

(** Outcome of the handshake: [next()] or [next(new Error(reason))]. *)
Inductive Handshake :=
  | Accept (u : SocketUser)
  | Reject (reason : string).

Section Auth.

(** [jwt.verify(token, JWT_SECRET, { issuer, audience })] at a given time:
    the decoded payload, or [None] where it throws. *)
Variable jwtVerify : Z → string → option JWTPayload.

(* verifyToken: rethrows as AuthError *)
Definition verifyToken (token : string) : Async JWTPayload :=
  t ← now;
  match jwtVerify t token with
  | Some p => Ret p
  | None => Throw
  end.

Definition validateSession (token : string) : Async (option JWTPayload) :=
  tryCatch
    (_ ← verifyToken token;
     session ← await (SessionFindUnique token);
     t ← now;
     match session with
     | None => Ret None
     | Some sv =>
         if bool_decide (session_expiresAt (sv_row sv) < t)
         then await (SessionDelete (session_id (sv_row sv)));; Ret None
         else
           t' ← now;
           await (SessionUpdate (session_id (sv_row sv)) t');;
           match sv_user sv with
           | Some u => Ret (Some (mkJWTPayload (user_id u) (user_email u)
                                               (user_username u) (user_isAdmin u)))
           | None => Throw (* session.user.id on a missing user *)
           end
     end)
    (Ret None).

(** [io.use(async (socket, next) => ...)]; [token] is
    [socket.handshake.auth.token]. *)
Definition authMiddleware (token : option string) : Async Handshake :=
  tryCatch
    (if negb (truthy token) then Ret (Reject "Authentication error")
     else
       user ← validateSession (default EmptyString token);
       match user with
       | None => Ret (Reject "Invalid session")
       | Some p =>
           fullUser ← await (UserFindUnique (jwt_userId p));
           match fullUser with
           | None => Ret (Reject "User not found")
           | Some fu =>
               (* (socket as AuthenticatedSocket).user = fullUser *)
               Ret (Accept (mkSocketUser (sel_id fu) None (sel_username fu)
                                         (sel_isAnonymous fu) (sel_anonymousId fu)
                                         (sel_isAdmin fu)))
           end
       end)
    (Ret (Reject "Authentication failed")).

(** The socket socket.io creates once the middleware called [next()]:
    a new key, no server, no channel, no room of the gateway's. *)
Definition openSocket (u : SocketUser) (g : Gateway) : Gateway :=
  mkGateway (<[fresh (dom (sockets g)) := mkSocket u None None ∅ true]> (sockets g))
            (outbox g).

(** A connection attempt: the middleware, then the admission if it accepted. *)
Definition connect (token : option string) : Async Handshake :=
  h ← authMiddleware token;
  match h with
  | Accept u => modify (openSocket u);; Ret h
  | Reject _ => Ret h
  end.

End Auth.

(** ** Running one handler

    The world a handler runs in, and a schedule for its suspension points:
    at each [await], [interfere] is what the rest of the system (other
    connections' handlers, the CRUD layer, the clock) did while the handler
    was suspended, and [fault] makes the collaborator reject the call.  Past
    the end of the schedule nothing interferes and no call is made to
    fail. *)
#[projections(primitive)]
Record World := mkWorld {
  gateway : Gateway;
  store : DB;
  clock : Z }.

Record Tick := mkTick {
  interfere : World → World;
  fault : bool }.

Definition quiet : Tick := mkTick id false.
Definition failing : Tick := mkTick id true.

(** [w] after one more event was handed to [sid]. *)
Definition emit (sid : SocketId) (ev : ServerEvent) (w : World) : World :=
  mkWorld (push [sid] ev (gateway w)) (store w) (clock w).

Fixpoint run {A} (m : Async A) (sched : list Tick) (w : World) : option A * World :=
  match m with
  | Ret a => (Some a, w)
  | Throw => (None, w)
  | Get k => run (k (gateway w)) sched w
  | Put f k => run k sched (mkWorld (f (gateway w)) (store w) (clock w))
  | Now k => run (k (clock w)) sched w
  | Await q k =>
      let w1 := interfere (hd quiet sched) w in
      if fault (hd quiet sched) then run (k None) (tl sched) w1
      else match exec (clock w1) q (store w1) with
           | Some (r, db') => run (k (Some r)) (tl sched) (mkWorld (gateway w1) db' (clock w1))
           | None => run (k None) (tl sched) w1
           end
  end.

(** ** The event loop

    A handler runs without interruption up to its next [await]; there it is
    parked with the pending query.  Any parked handler may be resumed next. *)
Inductive Task :=
  | Parked {R : Type} (q : Prisma R) (k : option R → Async unit).

Fixpoint segment (m : Async unit) (t : Z) (g : Gateway) : Gateway * option Task :=
  match m with
  | Ret _ | Throw => (g, None)
  | Get k => segment (k g) t g
  | Put f k => segment k t (f g)
  | Now k => segment (k t) t g
  | Await q k => (g, Some (Parked q k))
  end.

(** The writes to the gateway a handler makes before its next suspension
    point, each as the gateway before and after it. *)
Fixpoint writes (m : Async unit) (t : Z) (g : Gateway) : list (Gateway * Gateway) :=
  match m with
  | Ret _ | Throw | Await _ _ => []
  | Get k => writes (k g) t g
  | Put f k => (g, f g) :: writes k t (f g)
  | Now k => writes (k t) t g
  end.

Record Sys := mkSys {
  world : World;
  parked : list Task }.

(** Start or continue a handler in [w] with the other parked tasks [ts]. *)
Definition advance (m : Async unit) (w : World) (ts : list Task) : Sys :=
  let '(g, p) := segment m (clock w) (gateway w) in
  mkSys (mkWorld g (store w) (clock w)) (ts ++ option_list p).

(** Rows of [channel] carry a non-empty primary key. *)
Definition db_ok (db : DB) : Prop :=
  Forall (λ c, channel_id c ≠ EmptyString) (channels db).

Section Loop.

Variable jwtVerify : Z → string → option JWTPayload.

(** [fires sys m w ts]: in [sys] the loop may next run the code [m], in
    the world [w], the other parked handlers being [ts]. *)
Inductive fires : Sys → Async unit → World → list Task → Prop :=
  (* a client event arrives on an open connection *)
  | fires_event sys sid s ev :
      sockets (gateway (world sys)) !! sid = Some s →
      connected s = true →
      fires sys (handle sid (user s) ev) (world sys) (parked sys)
  (* a connection attempt *)
  | fires_connect sys token :
      fires sys (connect jwtVerify token ≫= λ _, Ret tt) (world sys) (parked sys)
  (* the transport of an open connection closes *)
  | fires_disconnect sys sid s :
      sockets (gateway (world sys)) !! sid = Some s →
      connected s = true →
      fires sys (onDisconnect sid (user s)) (world sys) (parked sys)
  (* the promise of a parked handler resolves *)
  | fires_resolve sys i R (q : Prisma R) k r db' :
      parked sys !! i = Some (Parked q k) →
      exec (clock (world sys)) q (store (world sys)) = Some (r, db') →
      fires sys (k (Some r))
            (mkWorld (gateway (world sys)) db' (clock (world sys)))
            (delete i (parked sys))
  (* the promise of a parked handler rejects *)
  | fires_reject sys i R (q : Prisma R) k :
      parked sys !! i = Some (Parked q k) →
      fires sys (k None) (world sys) (delete i (parked sys)).

Inductive step : Sys → Sys → Prop :=
  (* a handler runs up to its next suspension point *)
  | step_run sys m w ts :
      fires sys m w ts → step sys (advance m w ts)
  (* the CRUD layer writes to the store, time passes *)
  | step_env sys db' t' :
      db_ok db' →
      step sys (mkSys (mkWorld (gateway (world sys)) db' t') (parked sys)).

Definition initial (sys : Sys) : Prop :=
  sockets (gateway (world sys)) = ∅ ∧ parked sys = [] ∧ db_ok (store (world sys)).

Inductive reachable : Sys → Prop :=
  | reachable_init sys : initial sys → reachable sys
  | reachable_step sys sys' : reachable sys → step sys sys' → reachable sys'.

End Loop.

(** ** A sample deployment

    Four users, three servers, four channels; Alice and Bob are members of
    server [s1] and sit in its channel [c1], Carol is a member of [s2] and
    sits in [c3], Mallory is a member of no server, and server [s3], with
    its channel [c4], has no member. *)

Definition alice := mkUser "u1" "alice@example.org" "alice" false None None false.
Definition bob := mkUser "u2" "bob@example.org" "bob" false None (Some "bob.png") false.
Definition carol := mkUser "u3" "carol@example.org" "carol" true (Some "anon-7") None false.
Definition mallory := mkUser "u4" "mallory@example.org" "mallory" false None None false.

(** The object the middleware stores in [socket.user] for an account. *)
Definition asSocketUser (u : UserRow) : SocketUser :=
  mkSocketUser (user_id u) None (user_username u) (user_isAnonymous u) (user_anonymousId u)
               (user_isAdmin u).

Definition db0 : DB :=
  mkDB [alice; bob; carol; mallory]
       [mkSession "se1" "tokA" "u1" 1000 0; mkSession "se2" "tokOld" "u2" 5 0]
       [mkMember "u1" "s1"; mkMember "u2" "s1"; mkMember "u3" "s2"]
       [mkChannel "c2" "random" "TEXT" None 1 "s1" 0;
        mkChannel "c1" "general" "TEXT" (Some "talk") 0 "s1" 0;
        mkChannel "c3" "lobby" "TEXT" None 0 "s2" 0;
        mkChannel "c4" "void" "TEXT" None 0 "s3" 0]
       [mkMessage "m1" "hi" "TEXT" "u1" "c1" 10; mkMessage "m3" "psst" "TEXT" "u3" "c3" 15;
        mkMessage "m2" "yo" "TEXT" "u2" "c1" 20]
       []
       []
       0.

Definition socketAlice : Socket :=
  mkSocket (asSocketUser alice) None (Some "c1") {[channelRoom "c1"]} true.
Definition socketBob : Socket :=
  mkSocket (asSocketUser bob) (Some "s1") (Some "c1") {[channelRoom "c1"; serverRoom "s1"]} true.
Definition socketCarol : Socket :=
  mkSocket (asSocketUser carol) None (Some "c3") {[channelRoom "c3"]} true.
Definition socketMallory : Socket :=
  mkSocket (asSocketUser mallory) None None ∅ true.

Definition gateway0 : Gateway :=
  mkGateway (list_to_map [(0%nat, socketAlice); (1%nat, socketBob);
                          (2%nat, socketCarol); (3%nat, socketMallory)]) [].

Definition world0 : World := mkWorld gateway0 db0 100.

(** The same deployment once Bob has reacted to message [m1]. *)
Definition bobsReaction : ReactionRow := mkReaction "r1" "fire" "u2" "m1".
Definition world1 : World := mkWorld gateway0 (set_reactions (λ _, [bobsReaction]) db0) 100.

(** Oldest first, the order of the delivered history. *)
Definition olderFirst (a b : MessageRow) : Prop := message_createdAt a ≤ message_createdAt b.

(** ** Rooms and the current channel *)

(** [s] is open and subscribed to [room]. *)
Definition subscribed (room : string) (g : Gateway) (sid : SocketId) : Prop :=
  ∃ s, sockets g !! sid = Some s ∧ connected s = true ∧ room ∈ rooms s.

(** The channel rooms of a socket are determined by its [currentChannel]:
    none while it is unset; once set, no channel room but that of the
    current channel, and that one for as long as the connection is open. *)
Definition socket_ok (s : Socket) : Prop :=
  match currentChannel s with
  | None => ∀ r, r ∈ rooms s → isChannelRoom r = false
  | Some c =>
      c ≠ EmptyString
      ∧ (∀ r, r ∈ rooms s → isChannelRoom r = true → r = channelRoom c)
      ∧ (connected s = true → channelRoom c ∈ rooms s)
  end.

Definition gateway_ok (g : Gateway) : Prop :=
  map_Forall (λ _ s, socket_ok s) (sockets g).

(** Whether the activity touch after a broadcast is rejected: by a fault
    of the collaborator, or because no channel row has the key. *)
Definition touchFails (f2 : bool) (db : DB) (c : string) : bool :=
  f2 || negb (bool_decide (Exists (λ ch, channel_id ch = c) (channels db))).

(** Tokens the sample deployment's secret signs, and the CRUD layer
    deleting an account (its sessions with it) while a handler is
    suspended. *)
Definition jwt0 (t : Z) (token : string) : option JWTPayload :=
  if bool_decide (token ∈ ["tokA"; "tokOld"; "tokGone"])
  then Some (mkJWTPayload EmptyString EmptyString EmptyString false) else None.

Definition deleteUser (id : string) (db : DB) : DB :=
  mkDB (filter (λ u, user_id u ≠ id) (users db))
       (filter (λ s, session_userId s ≠ id) (sessions db))
       (serverMembers db) (channels db) (messages db) (attachments db) (reactions db)
       (nextId db).

Definition accountDeleted (id : string) : Tick :=
  mkTick (λ w, mkWorld (gateway w) (deleteUser id (store w)) (clock w)) false.

(** ** Agreement up to the server scope

    Two sockets, gateways or worlds agree up to the server scope when they
    differ at most in [currentServer] and in the rooms that are not channel
    rooms (the [server:] rooms [join-server] subscribes to). *)
Definition socket_agree (s1 s2 : Socket) : Prop :=
  user s1 = user s2
  ∧ currentChannel s1 = currentChannel s2
  ∧ connected s1 = connected s2
  ∧ ∀ c, channelRoom c ∈ rooms s1 ↔ channelRoom c ∈ rooms s2.

Definition gateway_agree (g1 g2 : Gateway) : Prop :=
  outbox g1 = outbox g2
  ∧ ∀ sid, option_Forall2 socket_agree (sockets g1 !! sid) (sockets g2 !! sid).

Definition world_agree (w1 w2 : World) : Prop :=
  gateway_agree (gateway w1) (gateway w2) ∧ store w1 = store w2 ∧ clock w1 = clock w2.

(** A handler is oblivious of the server scope when what it reads of the
    gateway and what it writes to it respect that agreement. *)
Fixpoint oblivious {A} (m : Async A) : Prop :=
  match m with
  | Ret _ | Throw => True
  | Get k => (∀ g1 g2, gateway_agree g1 g2 → k g1 = k g2) ∧ ∀ g, oblivious (k g)
  | Put f k => (∀ g1 g2, gateway_agree g1 g2 → gateway_agree (f g1) (f g2)) ∧ oblivious k
  | Now k => ∀ t, oblivious (k t)
  | Await _ k => ∀ r, oblivious (k r)
  end.

(** Schedules whose interference respects the agreement. *)
Definition fair (sched : list Tick) : Prop :=
  Forall (λ t, ∀ w1 w2, world_agree w1 w2 → world_agree (interfere t w1) (interfere t w2)) sched.

(** The events [join-server] can answer with. *)
Definition joinServerReply (ev : ServerEvent) : Prop :=
  match ev with
  | EvServerChannels _ | EvError _ => True
  | _ => False
  end.

(** [w] with [replies] added to the log and nothing else changed. *)
Definition answered (replies : list (SocketId * ServerEvent)) (w : World) : World :=
  mkWorld (mkGateway (sockets (gateway w)) (outbox (gateway w) ++ replies)) (store w) (clock w).

(** The sample deployment had Alice issued [join-server] for [s1]. *)
Definition world0_scoped : World :=
  mkWorld (updSocket 0%nat
             (λ s, withRooms (λ rs, {[serverRoom "s1"]} ∪ rs) (withServer (Some "s1") s))
             gateway0) db0 100.

(** ** Handlers that keep the rooms in step with the current channel *)

(** [r] is an answer the collaborator can give to [q] on a store whose
    channel rows carry non-empty keys. *)
Definition answers {R} (q : Prisma R) (r : R) : Prop :=
  ∃ t db db', db_ok db ∧ exec t q db = Some (r, db').

(** A write that adds to the log of events does so from a gateway that
    satisfies [gateway_ok]. *)
Definition settled (p : Gateway * Gateway) : Prop :=
  outbox p.2 = outbox p.1 ∨ gateway_ok p.1.

(** [safe m g]: started in a gateway [g], the handler [m] reaches each of
    its suspension points, and its end, in a gateway that satisfies
    [gateway_ok], and makes only [settled] writes, whatever the collaborator
    answers and whatever [gateway_ok] state the others leave while it is
    suspended. *)
Fixpoint safe (m : Async unit) (g : Gateway) : Prop :=
  match m with
  | Ret _ | Throw => gateway_ok g
  | Get k => safe (k g) g
  | Put f k => settled (g, f g) ∧ safe k (f g)
  | Now k => ∀ t, safe (k t) g
  | Await q k =>
      gateway_ok g
      ∧ ∀ g', gateway_ok g' →
          safe (k None) g' ∧ ∀ r, answers q r → safe (k (Some r)) g'
  end.

Definition task_safe (p : Task) : Prop :=
  match p with
  | Parked q k =>
      ∀ g', gateway_ok g' → safe (k None) g' ∧ ∀ r, answers q r → safe (k (Some r)) g'
  end.

(** The invariant of the event loop. *)
Definition sys_ok (sys : Sys) : Prop :=
  gateway_ok (gateway (world sys))
  ∧ db_ok (store (world sys))
  ∧ Forall task_safe (parked sys).

(** ** Driving the event loop

    One move of the loop as a function, so that a sequence of moves can be
    played on a concrete system. *)
Inductive Move :=
  | Connect (token : option string)
  | Deliver (sid : SocketId) (ev : ClientEvent)
  | HangUp (sid : SocketId)
  | Settle (i : nat) (rejected : bool)
  | Elapse (db' : DB) (t' : Z).

Definition move (jwtVerify : Z → string → option JWTPayload) (mv : Move) (sys : Sys)
    : option Sys :=
  match mv with
  | Connect token =>
      Some (advance (connect jwtVerify token ≫= λ _, Ret tt) (world sys) (parked sys))
  | Deliver sid ev =>
      s ← sockets (gateway (world sys)) !! sid;
      if connected s then Some (advance (handle sid (user s) ev) (world sys) (parked sys))
      else None
  | HangUp sid =>
      s ← sockets (gateway (world sys)) !! sid;
      if connected s then Some (advance (onDisconnect sid (user s)) (world sys) (parked sys))
      else None
  | Settle i rejected =>
      p ← parked sys !! i;
      match p with
      | Parked q k =>
          if rejected then Some (advance (k None) (world sys) (delete i (parked sys)))
          else
            '(r, db') ← exec (clock (world sys)) q (store (world sys));
            Some (advance (k (Some r))
                          (mkWorld (gateway (world sys)) db' (clock (world sys)))
                          (delete i (parked sys)))
      end
  | Elapse db' t' =>
      if bool_decide (db_ok db')
      then Some (mkSys (mkWorld (gateway (world sys)) db' t') (parked sys))
      else None
  end.

Fixpoint play (jwtVerify : Z → string → option JWTPayload) (mvs : list Move) (sys : Sys)
    : option Sys :=
  match mvs with
  | [] => Some sys
  | mv :: mvs' => sys' ← move jwtVerify mv sys; play jwtVerify mvs' sys'
  end.

(** The sample deployment before anyone connected, and a session in which
    Alice connects, enters [c1], and then enters [c2]. *)
Definition sys0 : Sys := mkSys (mkWorld (mkGateway ∅ []) db0 100) [].

Definition aliceMoves : list Move :=
  [Connect (Some "tokA"); Settle 0%nat false; Settle 0%nat false; Settle 0%nat false;
   Deliver 0%nat (JoinChannel "c1"); Settle 0%nat false; Settle 0%nat false;
   Deliver 0%nat (JoinChannel "c2"); Settle 0%nat false; Settle 0%nat true].

(** ** What a handler can and cannot do

    Properties of handler terms that every run inherits. *)

(** No exception escapes: every [Throw] of the body sits under a [catch]. *)
Fixpoint catches {A} (m : Async A) : Prop :=
  match m with
  | Ret _ => True
  | Throw => False
  | Get k => ∀ g, catches (k g)
  | Put _ k => catches k
  | Now k => ∀ t, catches (k t)
  | Await _ k => ∀ r, catches (k r)
  end.

(** Events that answer a request, and events that tell the others about a
    connection. *)
Definition isReply (ev : ServerEvent) : Prop :=
  match ev with
  | EvError _ | EvServerChannels _ | EvChannelMessages _ => True
  | _ => False
  end.

Definition isNotice (ev : ServerEvent) : Prop :=
  match ev with
  | EvUserJoined _ _ | EvUserTyping _ _ | EvUserStopTyping _ | EvUserLeft _ => True
  | _ => False
  end.

(** An event is well routed for the connection [sid] whose handler emitted
    it: a reply goes to [sid], a notice goes to someone else. *)
Definition routed (sid : SocketId) (e : SocketId * ServerEvent) : Prop :=
  (isReply e.2 → e.1 = sid) ∧ (isNotice e.2 → e.1 ≠ sid).

(** Every write of the handler appends well-routed events to the log. *)
Fixpoint routes {A} (sid : SocketId) (m : Async A) : Prop :=
  match m with
  | Ret _ | Throw => True
  | Get k => ∀ g, routes sid (k g)
  | Put f k =>
      (∀ g, ∃ new, outbox (f g) = outbox g ++ new ∧ Forall (routed sid) new)
      ∧ routes sid k
  | Now k => ∀ t, routes sid (k t)
  | Await _ k => ∀ r, routes sid (k r)
  end.

(** Queries that only read. *)
Definition reads {R} (q : Prisma R) : bool :=
  match q with
  | ServerMemberFindFirst _ _ | ChannelFindMany _ | ChannelFindFirst _ _
  | MessageFindMany _ _ | ReactionFindFirst _ _ _ | ReactionFindMany _
  | SessionFindUnique _ | UserFindUnique _ => true
  | _ => false
  end.

(** The handler issues no query but reading ones. *)
Fixpoint readOnly {A} (m : Async A) : Prop :=
  match m with
  | Ret _ | Throw => True
  | Get k => ∀ g, readOnly (k g)
  | Put _ k => readOnly k
  | Now k => ∀ t, readOnly (k t)
  | Await q k => reads q = true ∧ ∀ r, readOnly (k r)
  end.

(** Schedules under which the others leave the log of events, respectively
    the store, alone. *)
Definition logKept (sched : list Tick) : Prop :=
  Forall (λ t, ∀ w, outbox (gateway (interfere t w)) = outbox (gateway w)) sched.

Definition storeKept (sched : list Tick) : Prop :=
  Forall (λ t, ∀ w, store (interfere t w) = store w) sched.

(** What the gateway leaves alone in the store: accounts, memberships and
    attachments; the identity, name, kind, topic, position and server of
    every channel; and every message already stored, which stays where it
    is in the table. *)
Definition framed (db db' : DB) : Prop :=
  users db' = users db
  ∧ serverMembers db' = serverMembers db
  ∧ attachments db' = attachments db
  ∧ selectChannel <$> channels db' = selectChannel <$> channels db
  ∧ channel_serverId <$> channels db' = channel_serverId <$> channels db
  ∧ messages db `prefix_of` messages db'.

Definition storeFramed (sched : list Tick) : Prop :=
  Forall (λ t, ∀ w, framed (store w) (store (interfere t w))) sched.


(** ** Sessions

    The payload [validateSession] builds from the account of a session, and
    the well-formedness of the session table: primary keys and tokens are
    unique ([findUnique] and [delete] address a session by its token), and
    the keys still to be drawn are not in use. *)
Definition payloadOf (u : UserRow) : JWTPayload :=
  mkJWTPayload (user_id u) (user_email u) (user_username u) (user_isAdmin u).

Definition sessions_ok (db : DB) : Prop :=
  NoDup (session_id <$> sessions db)
  ∧ NoDup (session_token <$> sessions db)
  ∧ ∀ n, (nextId db ≤ n)%N → newId n ∉ session_id <$> sessions db.

(** The reasons the middleware rejects a handshake with. *)
Definition rejections : list string :=
  ["Authentication error"; "Invalid session"; "User not found"; "Authentication failed"].


(** Schedules under which the others keep the session table well formed. *)
Definition sessionsKept (sched : list Tick) : Prop :=
  Forall (λ t, ∀ w, sessions_ok (store w) → sessions_ok (store (interfere t w))) sched.

(** ** The rest of [lib/auth]: sessions created and destroyed

    Each of these functions awaits a single call to the store; it is given
    as what that call answers and does to the tables, [None] being a
    rejected promise. *)

(* prisma.session.delete({ where: { token } }): rejected when no session has the token *)
Definition destroySession (token : string) (db : DB) : option (unit * DB) :=
  if bool_decide (Exists (λ s, session_token s = token) (sessions db))
  then Some (tt, set_sessions (filter (λ s, session_token s ≠ token)) db)
  else None.

(* prisma.session.deleteMany({ where: { userId } }) *)
Definition destroyAllSessions (userId : string) (db : DB) : option (unit * DB) :=
  Some (tt, set_sessions (filter (λ s, session_userId s ≠ userId)) db).

(* prisma.session.deleteMany({ where: { expiresAt: { lt: new Date() } } }) *)
Definition cleanupExpiredSessions (now : Z) (db : DB) : option (unit * DB) :=
  Some (tt, set_sessions (filter (λ s, ¬ session_expiresAt s < now)) db).

Section Sessions.

(** [jwt.sign(payload, JWT_SECRET, { expiresIn, issuer, audience })] at a
    given time, and [d.setDate(d.getDate() + 7)]: the same local time seven
    calendar days later. *)
Variable jwtSign : Z → JWTPayload → string.
Variable sevenDaysAfter : Z → Z.

Definition generateToken (now : Z) (payload : JWTPayload) : string := jwtSign now payload.

(* prisma.session.create({ data: { userId, token, expiresAt } }).  The schema
   is not among the sources: the token column is taken to be unique, as
   findUnique({ where: { token } }) requires, so that a second session with
   the same token is rejected, and the use stamp to start at the time of
   creation. *)
Definition sessionCreate (now : Z) (userId token : string) (expiresAt : Z) (db : DB)
    : option (SessionRow * DB) :=
  if bool_decide (Exists (λ s, session_token s = token) (sessions db)) then None
  else
    let s := mkSession (newId (nextId db)) token userId expiresAt now in
    Some (s, bump_nextId (set_sessions (λ l, l ++ [s]) db)).

Definition createSession (now : Z) (userId : string) (db : DB) : option (string * DB) :=
  let token := generateToken now (mkJWTPayload userId EmptyString EmptyString false) in
  let expiresAt := sevenDaysAfter now in
  '(_, db') ← sessionCreate now userId token expiresAt db;
  Some (token, db').

End Sessions.

(** The verdict of [validateSession] on a store at a time, when no call is
    rejected: the payload of the account of the unexpired session that has
    the token, if the token verifies. *)
Definition verdict (jwtVerify : Z → string → option JWTPayload) (t : Z) (db : DB)
    (token : string) : option JWTPayload :=
  _ ← jwtVerify t token;
  s ← sessionRow db token;
  if bool_decide (session_expiresAt s < t) then None
  else payloadOf <$> userById db (session_userId s).


(** ** What is left of a schedule

    [rest m sched w] is the schedule [m] leaves to what runs after it: one
    tick is used at each [await]. *)
Fixpoint rest {A} (m : Async A) (sched : list Tick) (w : World) : list Tick :=
  match m with
  | Ret _ | Throw => sched
  | Get k => rest (k (gateway w)) sched w
  | Put f k => rest k sched (mkWorld (f (gateway w)) (store w) (clock w))
  | Now k => rest (k (clock w)) sched w
  | Await q k =>
      let w1 := interfere (hd quiet sched) w in
      if fault (hd quiet sched) then rest (k None) (tl sched) w1
      else match exec (clock w1) q (store w1) with
           | Some (r, db') => rest (k (Some r)) (tl sched) (mkWorld (gateway w1) db' (clock w1))
           | None => rest (k None) (tl sched) w1
           end
  end.

(** ** The HTTP guards ([middleware/auth] and [middleware/adminAuth])

    Of a request the guards read the [auth-token] cookie; of a response the
    model keeps the status, the body (for [NextResponse.json({ error })],
    the error text) and the [auth-token] cookie it sets, if any. *)
Record Cookie := mkCookie {
  cookie_value : string;
  cookie_maxAge : Z;
  cookie_path : option string }.

Record Response := mkResponse {
  res_status : Z;
  res_body : string;
  res_authCookie : option Cookie }.

(* NextResponse.json({ error }, { status }) *)
Definition jsonError (status : Z) (error : string) : Response :=
  mkResponse status error None.

(* response.cookies.set('auth-token', '', { httpOnly, secure, sameSite, maxAge: 0 }) *)
Definition clearCookie (r : Response) : Response :=
  mkResponse (res_status r) (res_body r) (Some (mkCookie EmptyString 0 None)).

(** [withAuth(request, handler)] of [middleware/auth]; [token] is
    [request.cookies.get('auth-token')?.value].  The last statement of the
    [try] block, [return handler(request, user)], hands the promise of the
    handler over without awaiting it: a rejection of the handler settles
    the promise of [withAuth] and is not caught by this [catch].  The call
    of the handler therefore comes after the [try]. *)
Definition withAuth (jwtVerify : Z → string → option JWTPayload) (token : option string)
    (handler : JWTPayload → Async Response) : Async Response :=
  r ← tryCatch
         (if negb (truthy token)
          then Ret (inl (jsonError 401 "Authentication required"))
          else
            user ← validateSession jwtVerify (default EmptyString token);
            match user with
            | None => Ret (inl (clearCookie (jsonError 401 "Invalid or expired session")))
            | Some p => Ret (inr p)
            end)
         (Ret (inl (jsonError 500 "Internal server error")));
  match r with
  | inl response => Ret response
  | inr user => handler user
  end.

(** [withAdminAuth] of [middleware/auth]: [withAuth] around a check of the
    administrator flag. *)
Definition withAdminAuth (jwtVerify : Z → string → option JWTPayload) (token : option string)
    (handler : JWTPayload → Async Response) : Async Response :=
  withAuth jwtVerify token
    (λ user, if negb (jwt_isAdmin user)
             then Ret (jsonError 403 "Admin access required")
             else handler user).

Module AdminAuth.

(* process.env.ADMIN_EMAIL || 'northlable69@gmail.com' *)
Definition ADMIN_EMAIL (env : option string) : string :=
  if truthy env then default EmptyString env else "northlable69@gmail.com".

(** [withAdminAuth] of [middleware/adminAuth]; [env] is
    [process.env.ADMIN_EMAIL]. *)
Definition withAdminAuth (jwtVerify : Z → string → option JWTPayload) (env : option string)
    (token : option string) (handler : JWTPayload → Async Response) : Async Response :=
  r ← tryCatch
         (if negb (truthy token)
          then Ret (inl (jsonError 401 "Authentication required"))
          else
            user ← validateSession jwtVerify (default EmptyString token);
            match user with
            | None => Ret (inl (jsonError 401 "Invalid or expired session"))
            | Some p =>
                if negb (bool_decide (jwt_email p = ADMIN_EMAIL env))
                then Ret (inl (jsonError 403 "Admin access required"))
                else if negb (jwt_isAdmin p)
                then Ret (inl (jsonError 403 "Admin privileges required"))
                else Ret (inr p)
            end)
         (Ret (inl (jsonError 500 "Internal server error")));
  match r with
  | inl response => Ret response
  | inr user => handler user
  end.

End AdminAuth.

(** The shape the guards share: without a token the request is refused at
    once; otherwise [validateSession] runs, and either the request is
    refused with [refusal] or [k] decides, in the world and with the
    schedule [validateSession] left. *)
Definition afterSession (jwtVerify : Z → string → option JWTPayload) (token : option string)
    (sched : list Tick) (w : World) (refusal : Response)
    (k : JWTPayload → list Tick → World → option Response * World)
    : option Response * World :=
  if truthy token then
    let v := run (validateSession jwtVerify (default EmptyString token)) sched w in
    match v.1 with
    | Some (Some p) =>
        k p (rest (validateSession jwtVerify (default EmptyString token)) sched w) v.2
    | _ => (Some refusal, v.2)
    end
  else (Some (jsonError 401 "Authentication required"), w).


(** ** What stays of a connection

    [extends g g']: from [g] to [g'] the log of events has only grown;
    every socket of [g] is still there, with the identity it had, and has
    not been reopened if it was closed; and a socket [g] did not have
    carries an identity without [userId]. *)
Definition extends (g g' : Gateway) : Prop :=
  outbox g `prefix_of` outbox g'
  ∧ (∀ sid s, sockets g !! sid = Some s →
       ∃ s', sockets g' !! sid = Some s'
             ∧ user s' = user s
             ∧ (connected s = false → connected s' = false))
  ∧ ∀ sid s', sockets g' !! sid = Some s' → sockets g !! sid = None →
      userId (user s') = None.

(** Every write of the handler extends the gateway. *)
Fixpoint steady {A} (m : Async A) : Prop :=
  match m with
  | Ret _ | Throw => True
  | Get k => ∀ g, steady (k g)
  | Put f k => (∀ g, extends g (f g)) ∧ steady k
  | Now k => ∀ t, steady (k t)
  | Await _ k => ∀ r, steady (k r)
  end.

Definition task_steady (p : Task) : Prop :=
  match p with
  | Parked q k => ∀ r, steady (k r)
  end.

(** Alice, as above, then asks for [c1] again; the access lookup has
    settled and the history read is pending. *)
Definition aliceReturns : list Move :=
  aliceMoves ++ [Deliver 0%nat (JoinChannel "c1"); Settle 0%nat false].

(** * Properties *)

(** Closed statements about the sample deployment are settled by running
    the model. *)
Ltac evaluate :=
  vm_compute; repeat match goal with |- _ ∧ _ => split end; reflexivity.

(** ** Sending without a room *)

(** C5. A [send-message] from a connection whose current channel is unset
    answers the sender alone with the error "Not in a channel" (the
    specification's "not in a channel" up to letter case); the store is left
    as it was, so no message record is created, and the one event added to
    the log is that error, so nothing is broadcast. *)
Theorem send_message_without_room sid u content type sched w :
  channelOf (gateway w) sid = None →
  let r := run (sendMessage sid u content type) sched w in
  r.1 = Some tt
  ∧ outbox (gateway r.2) = outbox (gateway w) ++ [(sid, EvError "Not in a channel")]
  ∧ to_lower "Not in a channel" = "not in a channel"
  ∧ store r.2 = store w
  ∧ sockets (gateway r.2) = sockets (gateway w).
Proof.
  intros Hc r. subst r. unfold sendMessage. cbn. rewrite Hc. cbn. done.
Qed.

Lemma send_message_without_room_witness :
  outbox (gateway (run (sendMessage 3%nat (asSocketUser mallory) "hello" None)
                       [failing] world0).2)
    = [(3%nat, EvError "Not in a channel")]
  ∧ messages (store (run (sendMessage 3%nat (asSocketUser mallory) "hello" None)
                         [failing] world0).2) = messages db0.
Proof.
  destruct (send_message_without_room 3%nat (asSocketUser mallory) "hello" None
              [failing] world0) as (_ & Hout & _ & Hstore & _); [reflexivity|].
  split; [exact Hout | by rewrite Hstore].
Defined.

(** ** Failing joins *)

(** C3, as stated, fails: Alice is a member of [s1]; the membership lookup
    finds a row, the channel listing is rejected.  The request fails (the only
    event is the error to Alice) and her [currentServer], unset before, is
    now [s1], as is her subscription to the room [server:s1]. *)
Lemma join_server_scope_moved_on_failure :
  let w' := (run (joinServer 0%nat (asSocketUser alice) "s1") [quiet; failing] world0).2 in
  outbox (gateway w') = [(0%nat, EvError "Failed to join server")]
  ∧ (sockets (gateway world0) !! 0%nat ≫= currentServer) = None
  ∧ (sockets (gateway w') !! 0%nat ≫= currentServer) = Some "s1"
  ∧ ((λ s, bool_decide (serverRoom "s1" ∈ rooms s)) <$> sockets (gateway w') !! 0%nat)
    = Some true.
Proof. evaluate. Qed.

(** C3, amended. With [w1] the world when the membership lookup settles:
    if that lookup is rejected, or finds no membership row, the result is
    [w1] plus one error event handed to the requester, so no socket (and no
    [currentServer]) changed and nothing was broadcast.  If the lookup finds
    a row and the channel listing is rejected, the handler still emits
    nothing but one error to the requester, and by then the requester's
    [currentServer] has been set to the requested server and the requester
    subscribed to its [server:] room.  The row looked for is one of the
    server with the [userId] the socket carries ([memberRow]); which rows
    that admits when [userId] is [undefined] is not part of this
    statement. *)
Theorem join_server_failure sid u serverId t1 t2 sched w :
  let w1 := interfere t1 w in
  let r := run (joinServer sid u serverId) (t1 :: t2 :: sched) w in
  (fault t1 = true → r = (Some tt, emit sid (EvError "Failed to join server") w1))
  ∧ (fault t1 = false → memberRow (store w1) (userId u) serverId = None →
       r = (Some tt, emit sid (EvError "Not a member of this server") w1))
  ∧ (fault t1 = false → is_Some (memberRow (store w1) (userId u) serverId) →
     fault t2 = true →
       ∃ w2, r = (Some tt, emit sid (EvError "Failed to join server") (interfere t2 w2))
         ∧ outbox (gateway w2) = outbox (gateway w1) ∧ store w2 = store w1
         ∧ ∀ s, sockets (gateway w1) !! sid = Some s →
             ∃ s', sockets (gateway w2) !! sid = Some s'
                   ∧ currentServer s' = Some serverId
                   ∧ serverRoom serverId ∈ rooms s').
Proof.
  intros w1 r. subst r. unfold joinServer. cbn. fold w1.
  split; [|split].
  - intros ->. reflexivity.
  - intros -> ->. reflexivity.
  - intros -> [m ->] Hf. cbn. rewrite Hf. eexists. split; [reflexivity|]. cbn.
    split; [done|]. split; [done|]. intros s Hs.
    rewrite !lookup_alter_eq, Hs. cbn. eexists. split; [done|]. cbn.
    split; [done|]. set_solver.
Qed.

Lemma join_server_failure_witness :
  run (joinServer 3%nat (asSocketUser mallory) "s3") [quiet; quiet] world0
    = (Some tt, emit 3%nat (EvError "Not a member of this server") world0)
  ∧ run (joinServer 0%nat (asSocketUser alice) "s1") [failing; quiet] world0
    = (Some tt, emit 0%nat (EvError "Failed to join server") world0)
  ∧ ∃ w2, run (joinServer 0%nat (asSocketUser alice) "s1") [quiet; failing] world0
            = (Some tt, emit 0%nat (EvError "Failed to join server") w2)
          ∧ outbox (gateway w2) = [].
Proof.
  split; [|split].
  - apply (join_server_failure 3%nat (asSocketUser mallory) "s3" quiet quiet [] world0);
      reflexivity.
  - apply (join_server_failure 0%nat (asSocketUser alice) "s1" failing quiet [] world0);
      reflexivity.
  - destruct (join_server_failure 0%nat (asSocketUser alice) "s1" quiet failing [] world0)
      as (_ & _ & H).
    destruct H as (w2 & Hr & Ho & _); [reflexivity | by eexists | reflexivity |].
    exists w2. split; [exact Hr | exact Ho].
Defined.

(** C6, as stated, fails: Alice sits in [c1] and asks for [c2]; the access
    lookup finds the channel, the history read is rejected.  The request fails (the only
    event is the error to Alice, no [user-joined] notice), yet her
    [currentChannel] has moved from [c1] to [c2] and so has her room. *)
Lemma join_channel_room_moved_on_failure :
  let w' := (run (joinChannel 0%nat (asSocketUser alice) "c2") [quiet; failing] world0).2 in
  outbox (gateway w') = [(0%nat, EvError "Failed to join channel")]
  ∧ (sockets (gateway world0) !! 0%nat ≫= currentChannel) = Some "c1"
  ∧ (sockets (gateway w') !! 0%nat ≫= currentChannel) = Some "c2"
  ∧ ((λ s, bool_decide (channelRoom "c2" ∈ rooms s ∧ channelRoom "c1" ∉ rooms s))
       <$> sockets (gateway w') !! 0%nat) = Some true.
Proof. evaluate. Qed.

(** C6, amended. With [w1] the world when the access lookup settles: if that
    lookup is rejected, or finds no channel, the result is [w1] plus one
    error event handed to the requester, so [currentChannel] and the rooms
    are untouched and no [user-joined] notice is sent.  If the lookup finds
    the channel and the history read is rejected, the handler still emits
    nothing but one error to the requester, and by then the requester's
    socket has left the room of its previous channel, has the requested
    channel as [currentChannel] and is subscribed to its room; the other
    sockets are as they were.  The channel looked for is the requested one
    in a server with a membership row for the [userId] the socket carries
    ([accessibleChannel]); which rows that admits when [userId] is
    [undefined] is not part of this statement. *)
Theorem join_channel_failure sid u channelId t1 t2 sched w :
  let w1 := interfere t1 w in
  let r := run (joinChannel sid u channelId) (t1 :: t2 :: sched) w in
  (fault t1 = true → r = (Some tt, emit sid (EvError "Failed to join channel") w1))
  ∧ (fault t1 = false → accessibleChannel (store w1) channelId (userId u) = None →
       r = (Some tt, emit sid (EvError "Channel not found or access denied") w1))
  ∧ (fault t1 = false → is_Some (accessibleChannel (store w1) channelId (userId u)) →
     fault t2 = true →
       ∃ w2, r = (Some tt, emit sid (EvError "Failed to join channel") (interfere t2 w2))
         ∧ outbox (gateway w2) = outbox (gateway w1) ∧ store w2 = store w1
         ∧ (∀ x, x ≠ sid → sockets (gateway w2) !! x = sockets (gateway w1) !! x)
         ∧ ∀ s, sockets (gateway w1) !! sid = Some s →
             ∃ s', sockets (gateway w2) !! sid = Some s'
                   ∧ currentChannel s' = Some channelId
                   ∧ channelRoom channelId ∈ rooms s'
                   ∧ rooms s'
                     = {[channelRoom channelId]}
                       ∪ (if truthy (currentChannel s)
                          then rooms s ∖ {[channelRoom (interpolate (currentChannel s))]}
                          else rooms s)
                   ∧ (∀ c', currentChannel s = Some c' → c' ≠ EmptyString →
                        c' ≠ channelId → channelRoom c' ∉ rooms s')).
Proof.
  intros w1 r. subst r. unfold joinChannel. cbn. fold w1.
  split; [|split].
  - intros ->. reflexivity.
  - intros -> ->. reflexivity.
  - intros -> [m ->] Hf. cbn.
    exists (mkWorld
              (updSocket sid (withRooms (λ rs, {[channelRoom channelId]} ∪ rs))
                 (updSocket sid (withChannel (Some channelId))
                    (if truthy (channelOf (gateway w1) sid)
                     then updSocket sid
                            (withRooms (λ rs, rs ∖ {[channelRoom
                               (interpolate (channelOf (gateway w1) sid))]})) (gateway w1)
                     else gateway w1)))
              (store w1) (clock w1)).
    split; [destruct (truthy _); cbn; by rewrite Hf|].
    split; [by destruct (truthy _)|]. split; [done|]. cbn. split.
    + intros x Hx. destruct (truthy _); cbn; by rewrite !lookup_alter_ne.
    + intros s Hs. unfold channelOf. rewrite Hs. cbn.
      assert (Hs' : ∃ s', alter (withRooms (λ rs, {[channelRoom channelId]} ∪ rs)) sid
                (alter (withChannel (Some channelId)) sid
                   (sockets (if truthy (currentChannel s)
                             then updSocket sid
                                    (withRooms (λ rs, rs ∖ {[channelRoom
                                       (interpolate (currentChannel s))]})) (gateway w1)
                             else gateway w1))) !! sid = Some s'
              ∧ currentChannel s' = Some channelId
              ∧ rooms s' = {[channelRoom channelId]}
                           ∪ (if truthy (currentChannel s)
                              then rooms s ∖ {[channelRoom (interpolate (currentChannel s))]}
                              else rooms s)).
      { destruct (truthy (currentChannel s)); cbn; rewrite !lookup_alter_eq, Hs; cbn;
          by eexists. }
      destruct Hs' as (s' & Hs' & Hcur & Hrooms). exists s'.
      split; [done|]. split; [done|].
      split; [rewrite Hrooms; apply elem_of_union; left; by apply elem_of_singleton|].
      split; [done|]. intros c' Hc' Hne Hother. rewrite Hrooms, Hc'. cbn.
      rewrite bool_decide_eq_false_2 by done. cbn.
      assert (Hroom : channelRoom c' ≠ channelRoom channelId).
      { intros Heq. unfold channelRoom in Heq. cbn in Heq. by simplify_eq. }
      intros [Hin%elem_of_singleton|[_ Hin]%elem_of_difference]%elem_of_union; [done|].
      apply Hin. by apply elem_of_singleton.
Qed.

Lemma join_channel_failure_witness :
  run (joinChannel 3%nat (asSocketUser mallory) "c4") [quiet; quiet] world0
    = (Some tt, emit 3%nat (EvError "Channel not found or access denied") world0)
  ∧ run (joinChannel 0%nat (asSocketUser alice) "c2") [failing; quiet] world0
    = (Some tt, emit 0%nat (EvError "Failed to join channel") world0)
  ∧ ∃ w2, run (joinChannel 0%nat (asSocketUser alice) "c2") [quiet; failing] world0
            = (Some tt, emit 0%nat (EvError "Failed to join channel") w2)
          ∧ outbox (gateway w2) = [].
Proof.
  split; [|split].
  - apply (join_channel_failure 3%nat (asSocketUser mallory) "c4" quiet quiet [] world0);
      reflexivity.
  - apply (join_channel_failure 0%nat (asSocketUser alice) "c2" failing quiet [] world0);
      reflexivity.
  - destruct (join_channel_failure 0%nat (asSocketUser alice) "c2" quiet failing [] world0)
      as (_ & _ & H).
    destruct H as (w2 & Hr & Ho & _); [reflexivity | by eexists | reflexivity |].
    exists w2. split; [exact Hr | exact Ho].
Defined.

(** ** The history delivered on join *)

Global Instance newerFirst_total : Total newerFirst.
Proof. intros a b. unfold newerFirst. lia. Qed.
Global Instance newerFirst_trans : Transitive newerFirst.
Proof. intros a b c. unfold newerFirst. lia. Qed.

Lemma mv_row_viewMessage b db (l : list MessageRow) :
  mv_row <$> (viewMessage b db <$> l) = l.
Proof. rewrite <-list_fmap_compose. induction l; [done|]. cbn. by f_equal. Qed.

(** What the collaborator answers to the history read: the [n] newest
    messages of the channel, newest first. *)
Lemma recent_messages_spec db c n :
  let recent := take n (merge_sort newerFirst (channelMessages db c)) in
  length recent = (n `min` length (channelMessages db c))%nat
  ∧ ∃ older, recent ++ older ≡ₚ channelMessages db c
             ∧ StronglySorted newerFirst (recent ++ older).
Proof.
  intros recent. subst recent. split.
  - rewrite length_take. by rewrite merge_sort_Permutation.
  - exists (drop n (merge_sort newerFirst (channelMessages db c))).
    rewrite take_drop. split; [apply merge_sort_Permutation|].
    apply StronglySorted_merge_sort; apply _.
Qed.

Lemma joinChannel_run sid u channelId t1 t2 sched w :
  let w1 := interfere t1 w in
  let w2 := interfere t2 (mkWorld (entered sid channelId (gateway w1)) (store w1) (clock w1)) in
  fault t1 = false →
  is_Some (accessibleChannel (store w1) channelId (userId u)) →
  fault t2 = false →
  run (joinChannel sid u channelId) (t1 :: t2 :: sched) w
  = (Some tt,
     mkWorld
       (push (filter (λ s, s ≠ sid) (subscribers (channelRoom channelId) (gateway w2)))
             (EvUserJoined (userId u) (displayName u))
             (push [sid]
                   (EvChannelMessages
                      (reverse (viewMessage true (store w2) <$>
                                  take 50 (merge_sort newerFirst
                                             (channelMessages (store w2) channelId)))))
                   (gateway w2)))
       (store w2) (clock w2)).
Proof.
  intros w1 w2 Hf1 [ch Hch] Hf2. subst w2. unfold joinChannel, entered. cbn. fold w1.
  rewrite Hf1, Hch. cbn. destruct (truthy _); cbn; by rewrite Hf2.
Qed.

(** C7. A [join-channel] whose access lookup finds the channel and whose
    history read resolves.  [w2] is the world when the history read
    settles, [stored] the messages of the store then whose [channelId] is
    the requested channel.  The first event the handler adds to the log
    hands the joining connection the list [history], before any
    [user-joined] notice goes to the others.  [history] is the reverse of
    what the collaborator returned for "newest first, take 50", each entry
    being a stored message with its includes: it has [min 50 n] entries
    for [n] stored messages of the channel, is ordered oldest first, and,
    read backwards and followed by the messages left out, is all of
    [stored] in newest-first order, so the entries are the most recent
    ones; with fewer than 50 messages it holds all of them.  The store is
    not written. *)
Theorem join_channel_history sid u channelId t1 t2 sched w :
  let w1 := interfere t1 w in
  let w2 := interfere t2 (mkWorld (entered sid channelId (gateway w1)) (store w1) (clock w1)) in
  let w' := (run (joinChannel sid u channelId) (t1 :: t2 :: sched) w).2 in
  let stored := filter (λ m, message_channelId m = channelId) (messages (store w2)) in
  fault t1 = false →
  is_Some (accessibleChannel (store w1) channelId (userId u)) →
  fault t2 = false →
  ∃ history notices,
    outbox (gateway w')
      = outbox (gateway w2) ++ (sid, EvChannelMessages history) :: notices
    ∧ Forall (λ e, e.1 ≠ sid ∧ e.2 = EvUserJoined (userId u) (displayName u)) notices
    ∧ store w' = store w2
    ∧ exec (clock w2) (MessageFindMany channelId 50) (store w2)
        = Some (reverse history, store w2)
    ∧ history = viewMessage true (store w2) <$> (mv_row <$> history)
    ∧ length history = (50 `min` length stored)%nat
    ∧ Sorted olderFirst (mv_row <$> history)
    ∧ (∃ older, reverse (mv_row <$> history) ++ older ≡ₚ stored
                ∧ StronglySorted newerFirst (reverse (mv_row <$> history) ++ older))
    ∧ ((length stored < 50)%nat → mv_row <$> history ≡ₚ stored).
Proof.
  intros w1 w2 w' stored Hf1 Hch Hf2.
  set (recent := take 50 (merge_sort newerFirst stored)).
  destruct (recent_messages_spec (store w2) channelId 50) as (Hlen & older & Hperm & Hsorted).
  change (channelMessages (store w2) channelId) with stored in Hlen, Hperm, Hsorted.
  fold recent in Hlen, Hperm, Hsorted.
  assert (Hrows : mv_row <$> reverse (viewMessage true (store w2) <$> recent) = reverse recent).
  { by rewrite fmap_reverse, mv_row_viewMessage. }
  exists (reverse (viewMessage true (store w2) <$> recent)),
         ((λ s, (s, EvUserJoined (userId u) (displayName u)))
            <$> filter (λ s, s ≠ sid) (subscribers (channelRoom channelId) (gateway w2))).
  subst w'. rewrite (joinChannel_run sid u channelId t1 t2 sched w Hf1 Hch Hf2).
  fold w1 w2. change (channelMessages (store w2) channelId) with stored. fold recent.
  rewrite Hrows, !reverse_involutive.
  split. { cbn. by rewrite <-app_assoc. }
  split. { apply Forall_fmap, Forall_forall. intros s Hs. cbn.
           apply list_elem_of_filter in Hs. tauto. }
  split; [done|].
  split; [done|].
  split. { by rewrite fmap_reverse. }
  split. { by rewrite length_reverse, length_fmap. }
  split.
  { apply StronglySorted_app in Hsorted as (_ & Hs & _).
    apply StronglySorted_Sorted in Hs. apply Sorted_reverse in Hs. exact Hs. }
  split. { by exists older. }
  intros Hlt. rewrite reverse_Permutation.
  subst recent. rewrite take_ge; [apply merge_sort_Permutation|].
  rewrite merge_sort_Permutation. lia.
Qed.

(** Alice asks for [c1]; while the history is read Bob's message [m9]
    is stored in [c1], and the history handed to Alice has it. *)
Lemma join_channel_history_witness :
  let late := mkMessage "m9" "late" "TEXT" "u2" "c1" 30 in
  let bobWrites :=
    mkTick (λ w, mkWorld (gateway w) (set_messages (λ l, l ++ [late]) (store w)) (clock w))
           false in
  ∃ history,
    head (outbox (gateway (run (joinChannel 0%nat (asSocketUser alice) "c1")
                               [quiet; bobWrites] world0).2))
      = Some (0%nat, EvChannelMessages history)
    ∧ mv_row <$> history ≡ₚ [mkMessage "m1" "hi" "TEXT" "u1" "c1" 10;
                             mkMessage "m2" "yo" "TEXT" "u2" "c1" 20;
                             late]
    ∧ Sorted olderFirst (mv_row <$> history).
Proof.
  intros late bobWrites.
  destruct (join_channel_history 0%nat (asSocketUser alice) "c1" quiet bobWrites [] world0)
    as (history & notices & Hout & _ & _ & _ & _ & _ & Hsorted & _ & Hall);
    [reflexivity | by eexists | reflexivity |].
  exists history. split; [|split].
  - rewrite Hout. reflexivity.
  - apply Hall. vm_compute. lia.
  - exact Hsorted.
Defined.

(** ** Delivery of a message *)

Lemma truthy_Some s : s ≠ EmptyString → truthy (Some s) = true.
Proof. intros H. cbn. by rewrite bool_decide_eq_false_2. Qed.

Lemma subscribers_spec room g sid :
  sid ∈ subscribers room g ↔ subscribed room g sid.
Proof.
  unfold subscribers, subscribed, socketIds, inRoom. rewrite list_elem_of_filter.
  rewrite elem_of_elements, elem_of_dom. split.
  - intros [Hp [s Hs]]. rewrite Hs in Hp. cbn in Hp.
    apply andb_true_iff in Hp as [Hc Hr]. apply bool_decide_eq_true in Hr. eauto.
  - intros (s & Hs & Hc & Hr). rewrite Hs. cbn. rewrite Hc. cbn.
    split; [by apply bool_decide_eq_true|by eexists].
Qed.

Lemma subscribers_NoDup room g : NoDup (subscribers room g).
Proof. unfold subscribers, socketIds. apply NoDup_filter, NoDup_elements. Qed.

Lemma everyone_spec g sid :
  sid ∈ everyone g ↔ ∃ s, sockets g !! sid = Some s ∧ connected s = true.
Proof.
  unfold everyone, socketIds. rewrite list_elem_of_filter, elem_of_elements, elem_of_dom.
  split.
  - intros [Hp [s Hs]]. rewrite Hs in Hp. eauto.
  - intros (s & Hs & Hc). rewrite Hs. split; [done|by eexists].
Qed.

Lemma currentChannel_subscribed g sid c :
  gateway_ok g → sid ∈ everyone g → channelOf g sid = Some c →
  subscribed (channelRoom c) g sid.
Proof.
  intros Hok Hopen Hcur. apply everyone_spec in Hopen as (s & Hs & Hc).
  unfold channelOf in Hcur. rewrite Hs in Hcur. cbn in Hcur.
  specialize (Hok sid s Hs). unfold socket_ok in Hok.
  rewrite Hcur in Hok. destruct Hok as (_ & _ & Hin). exists s. auto.
Qed.

(** What [send-message] comes to for an identity as the middleware stores
    it, whose [userId] reads [undefined]: the call that is to store the
    message lacks the required [userId] and is rejected, so that, whatever
    the store holds and whoever sits in the room, the sender alone is
    handed an error and nothing else happens. *)
Lemma sendMessage_rejected sid u content type t1 sched w c :
  userId u = None → channelOf (gateway w) sid = Some c → c ≠ EmptyString →
  run (sendMessage sid u content type) (t1 :: sched) w
  = (Some tt, emit sid (EvError "Failed to send message") (interfere t1 w)).
Proof.
  intros Hu Hcur Hne. unfold sendMessage. cbn.
  rewrite Hcur, (truthy_Some c Hne), Hu. cbn. by destruct (fault t1).
Qed.


(** ** Toggling a reaction *)

Global Instance newId_inj : Inj (=) (=) newId.
Proof. intros a b H. unfold newId in H. cbn in H. injection H as H. by apply (inj pretty). Qed.

Lemma reactionRow_Some db u m e r :
  reactionRow db u m e = Some r →
  r ∈ reactions db ∧ whereEq u (reaction_userId r)
  ∧ reaction_messageId r = m ∧ reaction_emoji r = e.
Proof.
  unfold reactionRow. intros H. apply find_some in H as [Hin Hp].
  apply bool_decide_eq_true in Hp as (? & ? & ?). split; [|done].
  by apply list_elem_of_In.
Qed.

(** C2, at failing inputs.  In [world0] message [m1] has no reaction:
    Alice's [add-reaction] creates none, and she is handed "Failed to add
    reaction".  In [world1] the one reaction to [m1] is Bob's: Alice's
    [add-reaction] with the same emoji deletes Bob's row, and every open
    connection is told that [m1] has no reaction left.  Her socket carries
    the identity the middleware stored, in which [userId] is
    [undefined]. *)
Lemma toggle_reaction_as_wired :
  let absent := run (addReaction 0%nat (asSocketUser alice) "m1" "fire") [] world0 in
  let present := run (addReaction 0%nat (asSocketUser alice) "m1" "fire") [] world1 in
  userId (asSocketUser alice) = None
  ∧ reactions (store world0) = []
  ∧ absent = (Some tt, emit 0%nat (EvError "Failed to add reaction") world0)
  ∧ reactions (store world1) = [mkReaction "r1" "fire" "u2" "m1"]
  ∧ reactions (store present.2) = []
  ∧ outbox (gateway present.2)
    = [(2%nat, EvMessageReactionsUpdated "m1" []);
       (3%nat, EvMessageReactionsUpdated "m1" []);
       (1%nat, EvMessageReactionsUpdated "m1" []);
       (0%nat, EvMessageReactionsUpdated "m1" [])].
Proof. evaluate. Qed.

(** ** Authentication failures *)

(** Case analysis on every branch a run depends on. *)
Ltac split_paths :=
  repeat match goal with
  | |- context [match ?x with _ => _ end] => destruct x eqn:?; cbn in *
  end.

(** C8, as stated, fails: a credential whose identity no longer exists is
    not rejected with "User not found".  Alice's token verifies and, while
    her account exists, admits her.  Once the account is gone, the same
    token is rejected with "Invalid session": so it is when her sessions
    went with the account ([gone]), and so it is when the session row is
    still there ([orphan]). *)
Lemma identity_gone_is_invalid_session :
  let gone := mkWorld gateway0 (deleteUser "u1" db0) 100 in
  let orphan :=
    mkWorld gateway0
      (mkDB (filter (λ u, user_id u ≠ "u1") (users db0)) (sessions db0) (serverMembers db0)
            (channels db0) (messages db0) (attachments db0) (reactions db0) (nextId db0))
      100 in
  (run (connect jwt0 (Some "tokA")) [] world0).1 = Some (Accept (asSocketUser alice))
  ∧ userById (store gone) "u1" = None
  ∧ sessionRow (store gone) "tokA" = None
  ∧ (run (connect jwt0 (Some "tokA")) [] gone).1 = Some (Reject "Invalid session")
  ∧ userById (store orphan) "u1" = None
  ∧ sessionRow (store orphan) "tokA" = Some (mkSession "se1" "tokA" "u1" 1000 0)
  ∧ (run (connect jwt0 (Some "tokA")) [] orphan).1 = Some (Reject "Invalid session").
Proof. evaluate. Qed.

(** C8, amended. A connection attempt under a schedule [t1], [t2], [t3] for
    the session lookup, the session write and the identity lookup.  A
    rejected attempt leaves the gateway as it was, provided the others
    touched only the store and the clock meanwhile: no socket is created,
    so there is no [user], [currentChannel] or [currentServer] to observe.
    A missing (undefined or empty) token is rejected with "Authentication
    error" without any call to a collaborator.  A token that is present but
    does not verify, has no session row, or whose session row has expired,
    is rejected with "Invalid session"; and so is a token whose session is
    there while the account of the session is not.  "User not found" is the
    answer when [validateSession] has accepted the token and the identity
    lookup that follows finds no row, that is when the account goes between
    the two.  The reasons are the specification's up to letter case. *)
Theorem authentication_failure jwtVerify token t1 t2 t3 sched w :
  let r := run (connect jwtVerify token) (t1 :: t2 :: t3 :: sched) w in
  let w1 := interfere t1 w in
  ((∀ t w0, t ∈ [t1; t2; t3] → gateway (interfere t w0) = gateway w0) →
     ∀ reason, r.1 = Some (Reject reason) → gateway r.2 = gateway w)
  ∧ (truthy token = false → r = (Some (Reject "Authentication error"), w))
  ∧ (∀ tok, token = Some tok → tok ≠ EmptyString →
       jwtVerify (clock w) tok = None
       ∨ (fault t1 = false ∧ sessionRow (store w1) tok = None)
       ∨ (fault t1 = false ∧ ∃ s, sessionRow (store w1) tok = Some s
                                  ∧ session_expiresAt s < clock w1)
       ∨ (fault t1 = false ∧ ∃ s, sessionRow (store w1) tok = Some s
                                  ∧ userById (store w1) (session_userId s) = None) →
       r.1 = Some (Reject "Invalid session"))
  ∧ (∀ tok p w2, token = Some tok → tok ≠ EmptyString →
       run (validateSession jwtVerify tok) [t1; t2] w = (Some (Some p), w2) →
       fault t3 = false →
       userById (store (interfere t3 w2)) (jwt_userId p) = None →
       r = (Some (Reject "User not found"), interfere t3 w2)).
Proof.
  intros r w1. subst r. split; [|split; [|split]].
  - intros Hgw reason.
    assert (H1 : ∀ w0, gateway (interfere t1 w0) = gateway w0) by (intros; apply Hgw; set_solver).
    assert (H2 : ∀ w0, gateway (interfere t2 w0) = gateway w0) by (intros; apply Hgw; set_solver).
    assert (H3 : ∀ w0, gateway (interfere t3 w0) = gateway w0) by (intros; apply Hgw; set_solver).
    unfold connect, authMiddleware, validateSession, verifyToken. cbn.
    split_paths; intros; simplify_eq; cbn; rewrite ?H3, ?H2, ?H1; cbn; rewrite ?H3, ?H2, ?H1; try done.
  - intros Ht. unfold connect, authMiddleware. cbn. rewrite Ht. reflexivity.
  - intros tok -> Hne Hcase. unfold connect, authMiddleware. rewrite (truthy_Some _ Hne).
    unfold validateSession, verifyToken. cbn. fold w1.
    destruct Hcase as [Hj|[[Hf Hs]|[[Hf (s & Hs & Hexp)]|[Hf (s & Hs & Hu)]]]].
    + rewrite Hj. reflexivity.
    + destruct (jwtVerify _ _); [|reflexivity]. cbn. fold w1. rewrite Hf, Hs. reflexivity.
    + destruct (jwtVerify _ _); [|reflexivity]. cbn. fold w1. rewrite Hf, Hs. cbn.
      rewrite bool_decide_eq_true_2 by done. cbn.
      split_paths; reflexivity.
    + destruct (jwtVerify _ _); [|reflexivity]. cbn. fold w1. rewrite Hf, Hs. cbn.
      rewrite Hu. split_paths; reflexivity.
  - intros tok p w2 -> Hne Hv Hf Hu. revert Hv.
    unfold connect, authMiddleware. rewrite (truthy_Some _ Hne).
    unfold validateSession, verifyToken. cbn.
    split_paths; intros; simplify_eq; cbn in *; try done.
    match goal with Hu : userById _ _ = None, Hs : _ <$> _ = Some _ |- _ =>
      rewrite Hu in Hs; discriminate end.
Qed.

Lemma authentication_failure_witness :
  run (connect jwt0 None) [quiet; quiet; quiet] world0
    = (Some (Reject "Authentication error"), world0)
  ∧ (run (connect jwt0 (Some "forged")) [quiet; quiet; quiet] world0).1
    = Some (Reject "Invalid session")
  ∧ (run (connect jwt0 (Some "tokGone")) [quiet; quiet; quiet] world0).1
    = Some (Reject "Invalid session")
  ∧ (run (connect jwt0 (Some "tokOld")) [quiet; quiet; quiet] world0).1
    = Some (Reject "Invalid session")
  ∧ (run (connect jwt0 (Some "tokA")) [accountDeleted "u1"; quiet; quiet] world0).1
    = Some (Reject "Invalid session")
  ∧ (run (connect jwt0 (Some "tokA")) [quiet; quiet; accountDeleted "u1"] world0).1
    = Some (Reject "User not found")
  ∧ gateway (run (connect jwt0 (Some "tokA")) [quiet; quiet; accountDeleted "u1"] world0).2
    = gateway world0
  ∧ to_lower "Authentication error" = "authentication error"
  ∧ to_lower "Invalid session" = "invalid session"
  ∧ to_lower "User not found" = "user not found".
Proof.
  pose proof (authentication_failure jwt0 None quiet quiet quiet [] world0)
    as (_ & Hmissing & _).
  pose proof (authentication_failure jwt0 (Some "forged") quiet quiet quiet [] world0)
    as (_ & _ & Hforged & _).
  pose proof (authentication_failure jwt0 (Some "tokGone") quiet quiet quiet [] world0)
    as (_ & _ & Hgone & _).
  pose proof (authentication_failure jwt0 (Some "tokOld") quiet quiet quiet [] world0)
    as (_ & _ & Hold & _).
  pose proof (authentication_failure jwt0 (Some "tokA") (accountDeleted "u1") quiet quiet []
                world0) as (_ & _ & Hdeleted & _).
  pose proof (authentication_failure jwt0 (Some "tokA") quiet quiet (accountDeleted "u1") []
                world0) as (Hstate & _ & _ & Hlost).
  split; [apply Hmissing; reflexivity|].
  split; [apply (Hforged "forged"); [reflexivity | discriminate | left; reflexivity]|].
  split; [apply (Hgone "tokGone");
          [reflexivity | discriminate | right; left; split; reflexivity]|].
  split; [apply (Hold "tokOld");
          [reflexivity | discriminate
          | right; right; left; split; [reflexivity|]; eexists; split; [reflexivity|];
            cbn; lia]|].
  split; [apply (Hdeleted "tokA");
          [reflexivity | discriminate | right; left; split; reflexivity]|].
  assert (Hrun : ∃ w2, run (connect jwt0 (Some "tokA")) [quiet; quiet; accountDeleted "u1"] world0
                       = (Some (Reject "User not found"), w2)).
  { eexists. eapply (Hlost "tokA");
      [reflexivity | discriminate | reflexivity | reflexivity | reflexivity]. }
  destruct Hrun as [w2 Hrun].
  split; [by rewrite Hrun|].
  split; [|done].
  apply (Hstate ltac:(intros t w0 Ht; set_unfold in Ht;
                      destruct Ht as [->|[->|[->|[]]]]; reflexivity)
                "User not found").
  by rewrite Hrun.
Defined.

(** ** The server scope is never read *)

Lemma channelRoom_inj c c' : channelRoom c = channelRoom c' → c = c'.
Proof. unfold channelRoom. cbn. intros H. by injection H. Qed.

Lemma channelRoom_is_channel c : isChannelRoom (channelRoom c) = true.
Proof. by destruct c. Qed.

Lemma serverRoom_not_channel s : isChannelRoom (serverRoom s) = false.
Proof. reflexivity. Qed.

Lemma serverRoom_ne_channelRoom s c : serverRoom s ≠ channelRoom c.
Proof. discriminate. Qed.

Global Instance socket_agree_equiv : Equivalence socket_agree.
Proof.
  split.
  - intros s. unfold socket_agree. tauto.
  - intros s1 s2 (?&?&?&H). unfold socket_agree. repeat split; try done; apply H.
  - intros s1 s2 s3 (?&?&?&H) (?&?&?&H'). unfold socket_agree.
    repeat split; try congruence; intros; [apply H', H|apply H, H']; done.
Qed.

Lemma gateway_agree_refl g : gateway_agree g g.
Proof. split; [done|]. intros sid. destruct (_ !! _); constructor. reflexivity. Qed.

Lemma world_agree_refl w : world_agree w w.
Proof. split; [apply gateway_agree_refl|done]. Qed.

Lemma channelOf_agree g1 g2 sid :
  gateway_agree g1 g2 → channelOf g1 sid = channelOf g2 sid.
Proof.
  intros [_ H]. unfold channelOf. specialize (H sid). destruct H as [s1 s2 (_&Hc&_)|]; done.
Qed.

Lemma gateway_agree_ids g1 g2 : gateway_agree g1 g2 → socketIds g1 = socketIds g2.
Proof.
  intros [_ H]. unfold socketIds. f_equal. apply set_eq. intros sid.
  rewrite !elem_of_dom. specialize (H sid).
  destruct H; split; intros [? ?]; by eauto.
Qed.

Lemma gateway_agree_filter (P : Socket → bool) g1 g2 :
  (∀ s1 s2, socket_agree s1 s2 → P s1 = P s2) →
  gateway_agree g1 g2 →
  filter (λ sid, from_option P false (sockets g1 !! sid) = true) (socketIds g1)
  = filter (λ sid, from_option P false (sockets g2 !! sid) = true) (socketIds g2).
Proof.
  intros HP Hg. rewrite (gateway_agree_ids _ _ Hg). apply list_filter_iff.
  intros sid. destruct Hg as [_ H]. specialize (H sid).
  destruct H as [s1 s2 Hs|]; cbn; [|done]. by rewrite (HP _ _ Hs).
Qed.

Lemma subscribers_agree c g1 g2 :
  gateway_agree g1 g2 → subscribers (channelRoom c) g1 = subscribers (channelRoom c) g2.
Proof.
  apply gateway_agree_filter. intros s1 s2 (_ & _ & Hc & Hr). unfold inRoom.
  rewrite Hc. f_equal. apply bool_decide_ext, Hr.
Qed.

Lemma everyone_agree g1 g2 : gateway_agree g1 g2 → everyone g1 = everyone g2.
Proof. apply gateway_agree_filter. by intros s1 s2 (_ & _ & Hc & _). Qed.

Lemma push_agree (to : Gateway → list SocketId) ev g1 g2 :
  (gateway_agree g1 g2 → to g1 = to g2) →
  gateway_agree g1 g2 → gateway_agree (push (to g1) ev g1) (push (to g2) ev g2).
Proof.
  intros Hto Hg. rewrite (Hto Hg). destruct Hg as [Ho Hs]. split; [|exact Hs].
  cbn. by rewrite Ho.
Qed.

Lemma updSocket_agree sid (f1 f2 : Socket → Socket) g1 g2 :
  (∀ s1 s2, socket_agree s1 s2 → socket_agree (f1 s1) (f2 s2)) →
  gateway_agree g1 g2 → gateway_agree (updSocket sid f1 g1) (updSocket sid f2 g2).
Proof.
  intros Hf [Ho Hs]. split; [done|]. intros k. cbn. specialize (Hs k).
  destruct (decide (sid = k)) as [->|Hne].
  - rewrite !lookup_alter_eq. destruct Hs; constructor. by apply Hf.
  - by rewrite !lookup_alter_ne.
Qed.

Lemma oblivious_run {A} (m : Async A) :
  oblivious m → ∀ sched w1 w2, fair sched → world_agree w1 w2 →
  (run m sched w1).1 = (run m sched w2).1
  ∧ world_agree (run m sched w1).2 (run m sched w2).2.
Proof.
  induction m as [a| |k IH|f k IH|k IH|R q k IH]; intros Hob sched w1 w2 Hfair Hw; cbn.
  - done.
  - done.
  - destruct Hob as [Hk Hob]. rewrite (Hk _ _ (proj1 Hw)). by apply IH.
  - destruct Hob as [Hf Hob]. apply IH; [done..|].
    destruct Hw as (Hg & Hs & Hc). split; [by apply Hf|done].
  - cbn in Hob. destruct Hw as (Hg & Hs & Hc). rewrite Hc. by apply IH.
  - cbn in Hob.
    assert (Hfair' : fair (tl sched)) by (destruct Hfair; [constructor|done]).
    assert (Hw1 : world_agree (interfere (hd quiet sched) w1) (interfere (hd quiet sched) w2)).
    { destruct Hfair; cbn; [done|auto]. }
    destruct (fault _); [by apply IH|].
    destruct Hw1 as (Hg & Hs & Hc). rewrite Hs, Hc.
    destruct (exec _ _ _) as [[r db']|]; apply IH; try done.
    all: by split.
Qed.

Lemma withServer_agree v1 v2 s1 s2 :
  socket_agree s1 s2 → socket_agree (withServer v1 s1) (withServer v2 s2).
Proof. done. Qed.

Lemma withChannel_agree v s1 s2 :
  socket_agree s1 s2 → socket_agree (withChannel v s1) (withChannel v s2).
Proof. intros (?&?&?&?). done. Qed.

Lemma join_agree room s1 s2 :
  socket_agree s1 s2 →
  socket_agree (withRooms (λ rs, {[room]} ∪ rs) s1) (withRooms (λ rs, {[room]} ∪ rs) s2).
Proof.
  intros (?&?&?&Hr). repeat split; try done; cbn; rewrite !elem_of_union, !Hr; tauto.
Qed.

Lemma leave_agree room s1 s2 :
  socket_agree s1 s2 →
  socket_agree (withRooms (λ rs, rs ∖ {[room]}) s1) (withRooms (λ rs, rs ∖ {[room]}) s2).
Proof.
  intros (?&?&?&Hr). repeat split; try done; cbn; rewrite !elem_of_difference, !Hr; tauto.
Qed.

Lemma closed_agree s1 s2 : socket_agree s1 s2 → socket_agree (closed s1) (closed s2).
Proof. intros (?&?&?&?). done. Qed.

Lemma filter_subscribers_agree sid c g1 g2 :
  gateway_agree g1 g2 →
  filter (λ s, s ≠ sid) (subscribers (channelRoom c) g1)
  = filter (λ s, s ≠ sid) (subscribers (channelRoom c) g2).
Proof. intros H. by rewrite (subscribers_agree _ _ _ H). Qed.

Create HintDb agree.
#[local] Hint Resolve updSocket_agree withServer_agree withChannel_agree join_agree leave_agree
  closed_agree : agree.

Ltac oblivious_step :=
  match goal with
  | |- _ ∧ _ => split
  | |- ∀ _, _ => intro
  | |- True => exact I
  | |- oblivious ?m =>
      match m with
      | context [match ?x with _ => _ end] => destruct x
      end
  | H : gateway_agree ?g1 ?g2 |- context [channelOf ?g1 ?sid] =>
      rewrite (channelOf_agree g1 g2 sid H)
  | |- _ = _ => reflexivity
  | |- gateway_agree (push [_] _ _) (push [_] _ _) =>
      apply (push_agree (λ _, [_])); [done|assumption]
  | |- gateway_agree (push (subscribers _ _) _ _) (push (subscribers _ _) _ _) =>
      apply (push_agree (subscribers _)); [apply subscribers_agree|assumption]
  | |- gateway_agree (push (filter _ (subscribers _ _)) _ _) (push _ _ _) =>
      apply (push_agree (λ g, filter _ (subscribers _ g)));
        [apply filter_subscribers_agree|assumption]
  | |- gateway_agree (push (everyone _) _ _) (push _ _ _) =>
      apply (push_agree everyone); [apply everyone_agree|assumption]
  | |- gateway_agree (updSocket _ _ _) (updSocket _ _ _) =>
      apply updSocket_agree; [auto with agree|assumption]
  end.

Ltac oblivious_tac := cbn; repeat (oblivious_step; cbn).

Lemma joinServer_oblivious sid u serverId : oblivious (joinServer sid u serverId).
Proof. unfold joinServer. oblivious_tac. Qed.

Lemma joinChannel_oblivious sid u channelId : oblivious (joinChannel sid u channelId).
Proof. unfold joinChannel. oblivious_tac. Qed.

Lemma sendMessage_oblivious sid u content type : oblivious (sendMessage sid u content type).
Proof. unfold sendMessage. oblivious_tac. Qed.

Lemma typingStart_oblivious sid u : oblivious (typingStart sid u).
Proof. unfold typingStart. oblivious_tac. Qed.

Lemma typingStop_oblivious sid u : oblivious (typingStop sid u).
Proof. unfold typingStop. oblivious_tac. Qed.

Lemma addReaction_oblivious sid u messageId emoji : oblivious (addReaction sid u messageId emoji).
Proof. unfold addReaction. oblivious_tac. Qed.

Lemma onDisconnect_oblivious sid u : oblivious (onDisconnect sid u).
Proof. unfold onDisconnect. oblivious_tac. Qed.

Lemma handle_oblivious sid u ev : oblivious (handle sid u ev).
Proof.
  destruct ev; cbn [handle];
    auto using joinServer_oblivious, joinChannel_oblivious, sendMessage_oblivious,
      typingStart_oblivious, typingStop_oblivious, addReaction_oblivious.
Qed.

Lemma updSocket_agree_r sid f g :
  (∀ s, socket_agree s (f s)) → gateway_agree g (updSocket sid f g).
Proof.
  intros Hf. split; [done|]. intros k. cbn.
  destruct (decide (sid = k)) as [->|Hne].
  - rewrite lookup_alter_eq. destruct (_ !! _); constructor. apply Hf.
  - rewrite lookup_alter_ne by done. destruct (_ !! _); constructor. reflexivity.
Qed.

Lemma enter_server_agree serverId s :
  socket_agree s (withRooms (λ rs, {[serverRoom serverId]} ∪ rs)
                            (withServer (Some serverId) s)).
Proof.
  repeat split; try done; cbn; rewrite elem_of_union, elem_of_singleton.
  - tauto.
  - intros [H|H]; [|done]. symmetry in H. by apply serverRoom_ne_channelRoom in H.
Qed.


Lemma world0_scoped_agree : world_agree world0 world0_scoped.
Proof.
  split; [|done]. apply updSocket_agree_r. intros s. apply enter_server_agree.
Qed.


(** Alice never issued [join-server]; she asks for [c2] and enters it. *)
Example join_without_server_scope :
  let w1 := (run (joinChannel 0%nat (asSocketUser alice) "c2") [] world0).2 in
  (sockets (gateway w1) !! 0%nat ≫= currentServer) = None
  ∧ (sockets (gateway w1) !! 0%nat ≫= currentChannel) = Some "c2"
  ∧ outbox (gateway w1) = [(0%nat, EvChannelMessages [])].
Proof. evaluate. Qed.

(** ** Reactions and membership *)

(** C1, at a failing input.  Mallory is a member of no server; message [m1]
    lives in channel [c1] of server [s1] and carries one reaction, Bob's.
    Mallory's [add-reaction] on [m1] with the same emoji is carried out:
    the handler looks up no membership, finds Bob's row (her socket's
    [userId] being [undefined], the lookup sets no condition on the
    identity), deletes it, and sends the reaction list, now empty, to every
    open connection, Carol in another server's channel included.  Her
    [join-channel] for [c1] is carried out as well: with [userId]
    [undefined] the access lookup asks for any member of the server. *)
Lemma add_reaction_without_membership :
  let w' := (run (addReaction 3%nat (asSocketUser mallory) "m1" "fire") [] world1).2 in
  let joined := (run (joinChannel 3%nat (asSocketUser mallory) "c1") [] world1).2 in
  filter (λ m, member_userId m = "u4") (serverMembers (store world1)) = []
  ∧ message_channelId <$> filter (λ m, message_id m = "m1") (messages (store world1))
    = ["c1"]
  ∧ userId (asSocketUser mallory) = None
  ∧ reactions (store world1) = [mkReaction "r1" "fire" "u2" "m1"]
  ∧ reactions (store w') = []
  ∧ outbox (gateway w')
    = [(2%nat, EvMessageReactionsUpdated "m1" []);
       (3%nat, EvMessageReactionsUpdated "m1" []);
       (1%nat, EvMessageReactionsUpdated "m1" []);
       (0%nat, EvMessageReactionsUpdated "m1" [])]
  ∧ (sockets (gateway joined) !! 3%nat ≫= currentChannel) = Some "c1".
Proof. evaluate. Qed.

(** ** One channel room per connection *)

Lemma segment_safe m t g :
  safe m g →
  gateway_ok (segment m t g).1 ∧ from_option task_safe True (segment m t g).2
  ∧ Forall settled (writes m t g).
Proof.
  revert g. induction m as [a| |k IH|f k IH|k IH|R q k IH]; intros g Hs; cbn in *.
  - done.
  - done.
  - by apply IH.
  - destruct Hs as [Hw Hs]. destruct (IH _ Hs) as (? & ? & ?).
    split; [done|]. split; [done|]. by constructor.
  - by apply IH.
  - destruct Hs as [Hg Hk]. done.
Qed.

Lemma advance_ok m w ts :
  safe m (gateway w) → db_ok (store w) → Forall task_safe ts →
  sys_ok (advance m w ts).
Proof.
  intros Hs Hdb Hts. unfold advance.
  pose proof (segment_safe m (clock w) (gateway w) Hs) as (Hg & Hp & _).
  destruct (segment _ _ _) as [g p]. cbn in *. split; [done|]. split; [done|].
  apply Forall_app. split; [done|]. destruct p; cbn; [|constructor].
  by repeat constructor.
Qed.

Lemma exec_db_ok t {R} (q : Prisma R) db r db' :
  db_ok db → exec t q db = Some (r, db') → db_ok db'.
Proof.
  unfold db_ok. intros Hok He.
  destruct q; cbn in He;
    try (destruct (bool_decide _); [|discriminate]);
    try match type of He with match ?u with _ => _ end = _ =>
          destruct u; [|discriminate] end;
    injection He as _ <-; cbn; try exact Hok.
  apply Forall_fmap. eapply Forall_impl; [exact Hok|].
  intros c Hc. cbn. by case_bool_decide.
Qed.

(** Updates of one socket. *)
Lemma updSocket_ok sid f g :
  gateway_ok g → (∀ s, sockets g !! sid = Some s → socket_ok s → socket_ok (f s)) →
  gateway_ok (updSocket sid f g).
Proof.
  intros Hg Hf k s. cbn. destruct (decide (sid = k)) as [->|Hne].
  - rewrite lookup_alter_eq. destruct (sockets g !! k) as [s0|] eqn:Hk; [|done].
    cbn. intros [= <-]. apply Hf; [done|]. by apply (Hg k).
  - rewrite lookup_alter_ne by done. apply Hg.
Qed.

Lemma push_ok to ev g : gateway_ok g → gateway_ok (push to ev g).
Proof. done. Qed.

(** *** Socket-level preservation *)

Lemma withServer_ok v s : socket_ok s → socket_ok (withServer v s).
Proof. done. Qed.

Lemma join_server_room_ok serverId s :
  socket_ok s → socket_ok (withRooms (λ rs, {[serverRoom serverId]} ∪ rs) s).
Proof.
  unfold socket_ok. cbn. destruct (currentChannel s) as [c|].
  - intros (Hne & Hrooms & Hin). split; [done|]. split.
    + intros r Hr Hch. apply elem_of_union in Hr as [Hr|Hr]; [|by apply Hrooms].
      apply elem_of_singleton in Hr as ->. by rewrite serverRoom_not_channel in Hch.
    + intros Hc. apply elem_of_union. right. by apply Hin.
  - intros Hrooms r Hr. apply elem_of_union in Hr as [Hr|Hr]; [|by apply Hrooms].
    apply elem_of_singleton in Hr as ->. apply serverRoom_not_channel.
Qed.

Lemma closed_ok s : socket_ok s → socket_ok (closed s).
Proof.
  unfold socket_ok. cbn. destruct (currentChannel s) as [c|].
  - intros (Hne & _). split; [done|]. split; [|done]. intros r Hr. by apply elem_of_empty in Hr.
  - intros _ r Hr. by apply elem_of_empty in Hr.
Qed.

(** The three statements of [join-channel] taken together: leave the room of
    the current channel if there is one, record the new channel, join its
    room. *)
Lemma switch_ok c s :
  c ≠ EmptyString → socket_ok s →
  socket_ok (withRooms (λ rs, {[channelRoom c]} ∪ rs)
               (withChannel (Some c)
                  (if truthy (currentChannel s)
                   then withRooms (λ rs, rs ∖ {[channelRoom (interpolate (currentChannel s))]}) s
                   else s))).
Proof.
  intros Hc Hs. unfold socket_ok in *.
  assert (Hno : ∀ r, r ∈ (if truthy (currentChannel s)
                          then rooms s ∖ {[channelRoom (interpolate (currentChannel s))]}
                          else rooms s) → isChannelRoom r = false).
  { destruct (currentChannel s) as [c0|] eqn:Hcur.
    - destruct Hs as (Hne & Hrooms & _). rewrite (truthy_Some _ Hne). cbn.
      intros r Hr. apply elem_of_difference in Hr as [Hr Hnot].
      destruct (isChannelRoom r) eqn:Hch; [|done].
      exfalso. apply Hnot, elem_of_singleton. by apply Hrooms.
    - cbn. exact Hs. }
  destruct (truthy (currentChannel s)); cbn; (split; [done|]); split.
  all: try (intros _; apply elem_of_union; left; by apply elem_of_singleton).
  all: intros r Hr Hch; apply elem_of_union in Hr as [Hr|Hr];
    [by apply elem_of_singleton in Hr|]; apply Hno in Hr; congruence.
Qed.

Lemma updSocket_compose sid f1 f2 g :
  updSocket sid f1 (updSocket sid f2 g) = updSocket sid (f1 ∘ f2) g.
Proof. unfold updSocket. cbn. f_equal. apply alter_alter_eq. Qed.

Lemma switch_gateway_ok sid c g :
  c ≠ EmptyString → gateway_ok g →
  gateway_ok
    (updSocket sid (withRooms (λ rs, {[channelRoom c]} ∪ rs))
       (updSocket sid (withChannel (Some c))
          (if truthy (channelOf g sid)
           then updSocket sid
                  (withRooms (λ rs, rs ∖ {[channelRoom (interpolate (channelOf g sid))]})) g
           else g))).
Proof.
  intros Hc Hg.
  destruct (truthy (channelOf g sid)) eqn:Ht; rewrite !updSocket_compose;
    (apply updSocket_ok; [done|]); intros s Hs Hok; cbn;
    pose proof (switch_ok c s Hc Hok) as H;
    unfold channelOf in *; rewrite Hs in *; cbn in *; rewrite Ht in H; exact H.
Qed.

Lemma answers_channel c u ch : answers (ChannelFindFirst c u) (Some ch) → c ≠ EmptyString.
Proof.
  intros (t & db & db' & Hok & He). cbn in He. injection He as He _.
  unfold accessibleChannel in He. apply find_some in He as [Hin Hp].
  apply andb_true_iff in Hp as [Hp _]. apply bool_decide_eq_true in Hp as <-.
  apply list_elem_of_In in Hin. unfold db_ok in Hok.
  rewrite Forall_forall in Hok. by apply Hok.
Qed.

(** *** Handlers *)

Ltac safe_step :=
  match goal with
  | |- _ ∧ _ => split
  | |- ∀ _, _ => intro
  | |- settled _ => first [by left | right; cbn]
  | |- gateway_ok (push _ _ _) => apply push_ok
  | |- gateway_ok _ => assumption
  | |- safe ?m _ =>
      match m with
      | context [match ?x with _ => _ end] => destruct x eqn:?
      end
  end.

Ltac safe_tac := cbn; repeat (safe_step; cbn).

Lemma joinServer_safe sid u serverId g :
  gateway_ok g → safe (joinServer sid u serverId) g.
Proof.
  intros Hg. unfold joinServer. safe_tac.
  all: try rewrite updSocket_compose; apply updSocket_ok; [done|]; intros so _ Hso;
    by apply join_server_room_ok, withServer_ok.
Qed.

Lemma joinChannel_safe sid u channelId g :
  gateway_ok g → safe (joinChannel sid u channelId) g.
Proof.
  intros Hg. unfold joinChannel. cbn. split; [done|]. intros g' Hg'.
  split; [safe_tac|]. intros [ch|] Hans; cbn; [|safe_tac].
  apply answers_channel in Hans.
  pose proof (switch_gateway_ok sid channelId g' Hans Hg') as Hsw.
  destruct (truthy (channelOf g' sid)); cbn;
    repeat (split; [by left|]); (split; [exact Hsw|]); safe_tac.
Qed.

Lemma sendMessage_safe sid u content type g :
  gateway_ok g → safe (sendMessage sid u content type) g.
Proof. intros Hg. unfold sendMessage. safe_tac. Qed.

Lemma typingStart_safe sid u g : gateway_ok g → safe (typingStart sid u) g.
Proof. intros Hg. unfold typingStart. safe_tac. Qed.

Lemma typingStop_safe sid u g : gateway_ok g → safe (typingStop sid u) g.
Proof. intros Hg. unfold typingStop. safe_tac. Qed.

Lemma addReaction_safe sid u messageId emoji g :
  gateway_ok g → safe (addReaction sid u messageId emoji) g.
Proof. intros Hg. unfold addReaction. safe_tac. Qed.

Lemma onDisconnect_safe sid u g : gateway_ok g → safe (onDisconnect sid u) g.
Proof.
  intros Hg. unfold onDisconnect. cbn.
  assert (gateway_ok (updSocket sid closed g)).
  { apply updSocket_ok; [done|]. intros s _. apply closed_ok. }
  safe_tac.
Qed.

Lemma handle_safe sid u ev g : gateway_ok g → safe (handle sid u ev) g.
Proof.
  destruct ev; cbn [handle];
    auto using joinServer_safe, joinChannel_safe, sendMessage_safe, typingStart_safe,
      typingStop_safe, addReaction_safe.
Qed.

Lemma openSocket_ok u g : gateway_ok g → gateway_ok (openSocket u g).
Proof.
  intros Hg. unfold openSocket, gateway_ok. cbn. apply map_Forall_insert_2; [|done].
  intros r Hr. by apply elem_of_empty in Hr.
Qed.

Lemma connect_safe jwtVerify token g :
  gateway_ok g → safe (connect jwtVerify token ≫= λ _, Ret tt) g.
Proof.
  intros Hg. unfold connect, authMiddleware, validateSession, verifyToken.
  safe_tac. all: by apply openSocket_ok.
Qed.

(** *** The loop *)

Lemma fires_safe jwtVerify sys m w ts :
  sys_ok sys → fires jwtVerify sys m w ts →
  safe m (gateway w) ∧ db_ok (store w) ∧ Forall task_safe ts.
Proof.
  intros (Hg & Hdb & Hts) Hf. destruct Hf as [sys sid s ev Hs Hc|sys token|sys sid s Hs Hc
    |sys i R q k r db' Hi He|sys i R q k Hi]; cbn.
  - split; [by apply handle_safe|done].
  - split; [by apply connect_safe|done].
  - split; [by apply onDisconnect_safe|done].
  - pose proof (Forall_lookup_1 _ _ _ _ Hts Hi) as Hk. cbn in Hk.
    split; [|split].
    + apply Hk; [done|]. by exists (clock (world sys)), (store (world sys)), db'.
    + by eapply exec_db_ok.
    + by apply Forall_delete.
  - pose proof (Forall_lookup_1 _ _ _ _ Hts Hi) as Hk. cbn in Hk.
    split; [by apply Hk|]. split; [done|]. by apply Forall_delete.
Qed.

Lemma step_ok jwtVerify sys sys' : sys_ok sys → step jwtVerify sys sys' → sys_ok sys'.
Proof.
  intros Hok Hstep. destruct Hstep as [sys m w ts Hf|sys db' t' Hdb].
  - destruct (fires_safe _ _ _ _ _ Hok Hf) as (? & ? & ?). by apply advance_ok.
  - destruct Hok as (Hg & _ & Hts). done.
Qed.

Lemma reachable_ok jwtVerify sys : reachable jwtVerify sys → sys_ok sys.
Proof.
  induction 1 as [sys (Hs & Hp & Hdb)|sys sys' _ IH Hstep].
  - split; [|split; [done|]].
    + unfold gateway_ok. rewrite Hs. apply map_Forall_empty.
    + rewrite Hp. constructor.
  - by eapply step_ok.
Qed.

Lemma move_step jwtVerify mv sys sys' :
  move jwtVerify mv sys = Some sys' → step jwtVerify sys sys'.
Proof.
  destruct mv as [token|sid ev|sid|i rejected|db' t']; cbn.
  - intros [= <-]. constructor. constructor.
  - destruct (_ !! sid) as [s|] eqn:Hs; [|done]. cbn.
    destruct (connected s) eqn:Hc; [|done]. intros [= <-].
    constructor. by econstructor.
  - destruct (_ !! sid) as [s|] eqn:Hs; [|done]. cbn.
    destruct (connected s) eqn:Hc; [|done]. intros [= <-].
    constructor. by econstructor.
  - destruct (_ !! i) as [[R q k]|] eqn:Hi; [|done]. cbn.
    destruct rejected.
    + intros [= <-]. constructor. by econstructor.
    + destruct (exec _ _ _) as [[r db']|] eqn:He; [|done]. cbn.
      intros [= <-]. constructor. by econstructor.
  - case_bool_decide; [|done]. intros [= <-]. by constructor.
Qed.

Lemma play_reachable jwtVerify mvs sys sys' :
  reachable jwtVerify sys → play jwtVerify mvs sys = Some sys' → reachable jwtVerify sys'.
Proof.
  revert sys. induction mvs as [|mv mvs IH]; intros sys Hr; cbn.
  - by intros [= <-].
  - destruct (move _ _ _) as [sys1|] eqn:Hm; [|done]. cbn.
    apply IH. eapply reachable_step; [exact Hr|]. by apply move_step in Hm.
Qed.

Lemma sys0_reachable jwtVerify : reachable jwtVerify sys0.
Proof.
  apply reachable_init. split; [done|]. split; [done|].
  unfold db_ok. cbn. repeat (constructor; [discriminate|]). constructor.
Qed.

Lemma accessible_channel_id db c u ch :
  db_ok db → accessibleChannel db c u = Some ch → c ≠ EmptyString.
Proof.
  intros Hok He. apply (answers_channel c u ch). exists 0, db, db.
  split; [done|]. cbn. by rewrite He.
Qed.

(** A [join-channel] that passes its access check leaves the connection in
    the room of the requested channel and in no other channel room, whether
    or not the history read that follows is rejected. *)
Lemma join_channel_moves sid u channelId t1 f2 sched w s :
  let w1 := interfere t1 w in
  let w' := (run (joinChannel sid u channelId) (t1 :: mkTick id f2 :: sched) w).2 in
  fault t1 = false →
  is_Some (accessibleChannel (store w1) channelId (userId u)) →
  db_ok (store w1) → gateway_ok (gateway w1) →
  sockets (gateway w1) !! sid = Some s →
  ∃ s', sockets (gateway w') !! sid = Some s'
        ∧ currentChannel s' = Some channelId
        ∧ ∀ r, isChannelRoom r = true → (r ∈ rooms s' ↔ r = channelRoom channelId).
Proof.
  intros w1 w' Hf [ch Hch] Hdb Hg Hs.
  pose proof (accessible_channel_id _ _ _ _ Hdb Hch) as Hne.
  pose proof (switch_ok channelId s Hne (Hg sid s Hs)) as Hok.
  exists (withRooms (λ rs, {[channelRoom channelId]} ∪ rs)
            (withChannel (Some channelId)
               (if truthy (currentChannel s)
                then withRooms (λ rs, rs ∖ {[channelRoom (interpolate (currentChannel s))]}) s
                else s))).
  split; [|split; [by destruct (truthy _)|]].
  - subst w'. unfold joinChannel. cbn. fold w1. rewrite Hf, Hch. cbn.
    unfold channelOf. rewrite Hs. cbn.
    destruct (truthy (currentChannel s)); destruct f2; cbn;
      rewrite !lookup_alter_eq, Hs; reflexivity.
  - intros r Hr. unfold socket_ok in Hok.
    assert (Hcur : currentChannel
              (withRooms (λ rs, {[channelRoom channelId]} ∪ rs)
                 (withChannel (Some channelId)
                    (if truthy (currentChannel s)
                     then withRooms
                            (λ rs, rs ∖ {[channelRoom (interpolate (currentChannel s))]}) s
                     else s))) = Some channelId) by by destruct (truthy _).
    rewrite Hcur in Hok. destruct Hok as (_ & Hrooms & _). split.
    + intros Hin. by apply Hrooms.
    + intros ->. cbn. apply elem_of_union. left. by apply elem_of_singleton.
Qed.

(** C9. In every state the event loop can reach, that is at every point
    between two uninterrupted runs of handler code, each socket is in at
    most one channel room, a channel room it is in is that of its
    [currentChannel], and an open connection whose [currentChannel] is [c]
    is among the subscribers of the room of [c'] exactly when [c' = c]:
    never in two rooms, never in none.  Within a run, every write that adds
    events to the log, hence every broadcast, is made from a gateway in that
    condition, so the three statements "leave the old room, record the new
    channel, join its room" are never observed half done; and the state
    after the run is reachable again.  Finally a [join-channel] that passes
    its access check leaves the connection in the room of the requested
    channel and in no other channel room. *)
Theorem one_channel_room jwtVerify sys :
  reachable jwtVerify sys →
  (∀ sid s, sockets (gateway (world sys)) !! sid = Some s →
     (∀ r r', r ∈ rooms s → r' ∈ rooms s →
              isChannelRoom r = true → isChannelRoom r' = true → r = r')
     ∧ (∀ c, channelRoom c ∈ rooms s → currentChannel s = Some c)
     ∧ (connected s = true → ∀ c, currentChannel s = Some c →
          ∀ c', sid ∈ subscribers (channelRoom c') (gateway (world sys)) ↔ c' = c))
  ∧ (∀ m w ts, fires jwtVerify sys m w ts →
       Forall settled (writes m (clock w) (gateway w))
       ∧ reachable jwtVerify (advance m w ts))
  ∧ (∀ sid u channelId t1 f2 sched s,
       let w := world sys in
       let w1 := interfere t1 w in
       let w' := (run (joinChannel sid u channelId) (t1 :: mkTick id f2 :: sched) w).2 in
       fault t1 = false →
       is_Some (accessibleChannel (store w1) channelId (userId u)) →
       db_ok (store w1) → gateway_ok (gateway w1) →
       sockets (gateway w1) !! sid = Some s →
       ∃ s', sockets (gateway w') !! sid = Some s'
             ∧ currentChannel s' = Some channelId
             ∧ ∀ r, isChannelRoom r = true → (r ∈ rooms s' ↔ r = channelRoom channelId)).
Proof.
  intros Hreach. pose proof (reachable_ok _ _ Hreach) as Hok. split; [|split].
  - destruct Hok as (Hg & _). intros sid s Hs. specialize (Hg sid s Hs).
    unfold socket_ok in Hg. split; [|split].
    + intros r r' Hr Hr' Hch Hch'. destruct (currentChannel s) as [c|].
      * destruct Hg as (_ & Hrooms & _). rewrite (Hrooms r), (Hrooms r'); done.
      * apply Hg in Hr. congruence.
    + intros c Hc. destruct (currentChannel s) as [c0|].
      * destruct Hg as (_ & Hrooms & _). f_equal. apply channelRoom_inj. symmetry.
        apply Hrooms; [done|apply channelRoom_is_channel].
      * apply Hg in Hc. by rewrite channelRoom_is_channel in Hc.
    + intros Hc c Hcur c'. rewrite Hcur in Hg. destruct Hg as (_ & Hrooms & Hin).
      rewrite subscribers_spec. split.
      * intros (s' & Hs' & _ & Hr). simplify_eq. apply channelRoom_inj.
        apply Hrooms; [done|apply channelRoom_is_channel].
      * intros ->. exists s. auto.
  - intros m w ts Hf. split.
    + destruct (fires_safe _ _ _ _ _ Hok Hf) as (Hs & _).
      by apply segment_safe.
    + eapply reachable_step; [exact Hreach|]. by constructor.
  - intros sid u channelId t1 f2 sched s w w1 w'. apply join_channel_moves.
Qed.
Lemma one_channel_room_witness :
  ∃ sys, play jwt0 aliceMoves sys0 = Some sys
         ∧ ∀ c', 0%nat ∈ subscribers (channelRoom c') (gateway (world sys)) ↔ c' = "c2".
Proof.
  eexists. split; [vm_compute; reflexivity|].
  match goal with |- context [world ?sys] =>
    assert (Hreach : reachable jwt0 sys)
      by (apply (play_reachable jwt0 aliceMoves sys0 sys (sys0_reachable jwt0));
          vm_compute; reflexivity);
    destruct (one_channel_room jwt0 sys Hreach) as [Hinv _]
  end.
  edestruct (Hinv 0%nat) as (_ & _ & Hsub); [vm_compute; reflexivity|].
  apply Hsub; reflexivity.
Defined.

(** * Further properties *)

(** ** No handler lets an exception escape *)

Lemma tryCatch_catches {A} (body handler : Async A) :
  catches handler → catches (tryCatch body handler).
Proof. intros Hh. induction body; cbn; auto. Qed.

Lemma catches_run {A} (m : Async A) sched w :
  catches m → is_Some (run m sched w).1.
Proof.
  revert sched w. induction m as [a| |k IH|f k IH|k IH|R q k IH]; intros sched w Hc; cbn in *.
  - by eexists.
  - done.
  - by apply IH.
  - by apply IH.
  - by apply IH.
  - destruct (fault _); [by apply IH|]. destruct (exec _ _ _) as [[r db']|]; by apply IH.
Qed.

Lemma handle_catches sid u ev : catches (handle sid u ev).
Proof.
  destruct ev; cbn [handle].
  1,2,3,6: by apply tryCatch_catches.
  all: intros g; cbn; by destruct (truthy _).
Qed.

Lemma onDisconnect_catches sid u : catches (onDisconnect sid u).
Proof. cbn. intros g. cbn. by destruct (truthy _). Qed.

Lemma bind_catches {A B} (m : Async A) (f : A → Async B) :
  catches m → (∀ a, catches (f a)) → catches (bind m f).
Proof. intros Hm Hf. induction m; cbn in *; auto; done. Qed.

Lemma connect_catches jwtVerify token : catches (connect jwtVerify token).
Proof.
  unfold connect. apply bind_catches.
  - by apply tryCatch_catches.
  - by intros [u|reason].
Qed.

Lemma validateSession_catches jwtVerify token : catches (validateSession jwtVerify token).
Proof. by apply tryCatch_catches. Qed.

(** X1. Whatever the schedule (faults of the collaborator, interference of
    the others) and whatever the world, a listener of the gateway returns
    normally: a client event, a disconnect and a connection attempt never
    end in an uncaught exception, and neither does [validateSession]. *)
Theorem handlers_never_throw jwtVerify sid u sched w :
  (∀ ev, (run (handle sid u ev) sched w).1 = Some tt)
  ∧ (run (onDisconnect sid u) sched w).1 = Some tt
  ∧ (∀ token, is_Some (run (connect jwtVerify token) sched w).1)
  ∧ (∀ token, is_Some (run (validateSession jwtVerify token) sched w).1).
Proof.
  split; [|split; [|split]].
  - intros ev. destruct (catches_run (handle sid u ev) sched w (handle_catches sid u ev))
      as [[] H]. exact H.
  - destruct (catches_run (onDisconnect sid u) sched w (onDisconnect_catches sid u))
      as [[] H]. exact H.
  - intros token. apply catches_run, connect_catches.
  - intros token. apply catches_run, validateSession_catches.
Qed.

(** By contrast an [await] outside a [try] does throw when the call is
    rejected. *)
Example bare_await_throws :
  (run (await (ReactionDelete "nope")) [] world0).1 = None.
Proof. reflexivity. Qed.

(** ** Where events go *)

Lemma routes_run {A} sid (m : Async A) sched w :
  routes sid m → logKept sched →
  ∃ new, outbox (gateway (run m sched w).2) = outbox (gateway w) ++ new
         ∧ Forall (routed sid) new.
Proof.
  revert sched w. induction m as [a| |k IH|f k IH|k IH|R q k IH]; intros sched w Hr Hs; cbn in *.
  - exists []. by rewrite app_nil_r.
  - exists []. by rewrite app_nil_r.
  - by apply IH.
  - destruct Hr as [Hf Hk]. destruct (Hf (gateway w)) as (new1 & Ho1 & Hn1).
    destruct (IH sched (mkWorld (f (gateway w)) (store w) (clock w)) Hk Hs)
      as (new2 & Ho2 & Hn2).
    exists (new1 ++ new2). cbn in Ho2. rewrite Ho2, Ho1, app_assoc.
    split; [done|]. by apply Forall_app.
  - by apply IH.
  - assert (Hs' : logKept (tl sched)) by (destruct Hs; [constructor|done]).
    assert (Ho : outbox (gateway (interfere (hd quiet sched) w)) = outbox (gateway w)).
    { destruct Hs; cbn; [done|auto]. }
    destruct (fault _); [|destruct (exec _ _ _) as [[r db']|]];
      match goal with |- context [run (k ?r) ?s ?w'] =>
        destruct (IH r s w' (Hr r) Hs') as (new & Hn & Hnew) end;
      exists new; rewrite Hn; cbn; by rewrite Ho.
Qed.

Ltac routed_tac :=
  first
    [ apply Forall_nil_2
    | apply Forall_fmap, Forall_forall; intros ? Hin; cbn;
      first [ by (split; intros [])
            | by (apply list_elem_of_filter in Hin as [? _]; split; [intros []|]) ]
    | apply Forall_cons; split; [|apply Forall_nil_2];
      first [ by (split; intros []) | by (split; [|intros []]) ] ].

Ltac routes_step :=
  match goal with
  | |- _ ∧ _ => split
  | |- True => exact I
  | |- ∃ new, ?o = ?o ++ new ∧ _ => exists []; split; [by rewrite app_nil_r|routed_tac]
  | |- ∃ new, ?o ++ ?l = ?o ++ new ∧ _ => exists l; split; [reflexivity|routed_tac]
  | |- routes _ ?m =>
      match m with context [match ?x with _ => _ end] => destruct x end
  | |- ∀ _, _ => intro
  end.

Ltac routes_tac := cbn; repeat (routes_step; cbn).

Lemma handle_routes sid u ev : routes sid (handle sid u ev).
Proof.
  destruct ev; cbn [handle];
    [unfold joinServer|unfold joinChannel|unfold sendMessage|unfold typingStart
    |unfold typingStop|unfold addReaction]; routes_tac.
Qed.

Lemma onDisconnect_routes sid u : routes sid (onDisconnect sid u).
Proof. unfold onDisconnect. routes_tac. Qed.

(** X2. What a listener adds to the log of events is well routed: every
    reply it emits (an error, the channel list, the channel history) is
    handed to the connection the listener serves and to no other, and every
    notice about that connection (joined, typing, stopped typing, left) is
    handed to others only, never echoed to it.  This holds for every client
    event and for the disconnect, under every schedule of faults. *)
Theorem events_well_routed sid u sched w :
  logKept sched →
  ∀ m, (∃ ev, m = handle sid u ev) ∨ m = onDisconnect sid u →
    ∃ new, outbox (gateway (run m sched w).2) = outbox (gateway w) ++ new
           ∧ Forall (routed sid) new.
Proof.
  intros Hs m [[ev ->]| ->]; apply routes_run;
    auto using handle_routes, onDisconnect_routes.
Qed.

Lemma events_well_routed_witness :
  ∃ new, outbox (gateway (run (handle 0%nat (asSocketUser alice) (JoinChannel "c2"))
                              [quiet; failing] world0).2)
         = outbox (gateway world0) ++ new
         ∧ Forall (routed 0%nat) new.
Proof.
  apply (events_well_routed 0%nat (asSocketUser alice) [quiet; failing] world0).
  - repeat constructor.
  - left. by eexists.
Defined.

(** ** What the handlers do to the store *)

Lemma reads_exec t {R} (q : Prisma R) db r db' :
  reads q = true → exec t q db = Some (r, db') → db' = db.
Proof. destruct q; cbn; intros; simplify_eq; done. Qed.

Lemma readOnly_run {A} (m : Async A) sched w :
  readOnly m → storeKept sched → store (run m sched w).2 = store w.
Proof.
  revert sched w. induction m as [a| |k IH|f k IH|k IH|R q k IH]; intros sched w Hr Hs; cbn in *.
  - done.
  - done.
  - by apply IH.
  - by rewrite IH.
  - by apply IH.
  - destruct Hr as [Hq Hr].
    assert (Hs' : storeKept (tl sched)) by (destruct Hs; [constructor|done]).
    assert (Ho : store (interfere (hd quiet sched) w) = store w).
    { destruct Hs; cbn; [done|auto]. }
    destruct (fault _); [by rewrite IH|].
    destruct (exec _ _ _) as [[r db']|] eqn:He; rewrite IH; try done.
    cbn. by apply reads_exec in He as ->.
Qed.

Ltac readOnly_step :=
  match goal with
  | |- _ ∧ _ => split
  | |- True => exact I
  | |- _ = _ => reflexivity
  | |- readOnly ?m =>
      match m with context [match ?x with _ => _ end] => destruct x end
  | |- ∀ _, _ => intro
  end.

Ltac readOnly_tac := cbn; repeat (readOnly_step; cbn).

Lemma joinServer_readOnly sid u serverId : readOnly (joinServer sid u serverId).
Proof. unfold joinServer. readOnly_tac. Qed.

Lemma joinChannel_readOnly sid u channelId : readOnly (joinChannel sid u channelId).
Proof. unfold joinChannel. readOnly_tac. Qed.

Lemma typingStart_readOnly sid u : readOnly (typingStart sid u).
Proof. unfold typingStart. readOnly_tac. Qed.

Lemma typingStop_readOnly sid u : readOnly (typingStop sid u).
Proof. unfold typingStop. readOnly_tac. Qed.

Lemma onDisconnect_readOnly sid u : readOnly (onDisconnect sid u).
Proof. unfold onDisconnect. readOnly_tac. Qed.

(** X3. Joining a server, joining a channel, the typing indicators and the
    disconnect only read the store: as long as nobody else writes to it
    while the listener is suspended, the store after the listener is the
    store before it, on every path and under every fault. *)
Theorem reading_handlers_keep_store sid u sched w :
  storeKept sched →
  ∀ m, (∃ serverId, m = joinServer sid u serverId)
       ∨ (∃ channelId, m = joinChannel sid u channelId)
       ∨ m = typingStart sid u ∨ m = typingStop sid u ∨ m = onDisconnect sid u →
    store (run m sched w).2 = store w.
Proof.
  intros Hs m Hm. apply readOnly_run; [|done].
  destruct Hm as [[? ->]|[[? ->]|[->|[->| ->]]]];
    auto using joinServer_readOnly, joinChannel_readOnly, typingStart_readOnly,
               typingStop_readOnly, onDisconnect_readOnly.
Qed.

Lemma reading_handlers_keep_store_witness :
  store (run (joinChannel 0%nat (asSocketUser alice) "c2") [quiet; failing] world0).2
  = store world0.
Proof.
  apply (reading_handlers_keep_store 0%nat (asSocketUser alice) [quiet; failing] world0).
  - repeat constructor.
  - right; left. by eexists.
Defined.

Global Instance framed_refl : Reflexive framed.
Proof. by intros db. Qed.

Global Instance framed_trans : Transitive framed.
Proof.
  intros a b c (?&?&?&?&?&?) (?&?&?&?&?&?).
  repeat split; try congruence. by etrans.
Qed.

Lemma exec_framed t {R} (q : Prisma R) db r db' :
  exec t q db = Some (r, db') → framed db db'.
Proof.
  destruct q; cbn; intros; repeat case_bool_decide; repeat case_match; simplify_eq;
    try done.
  - repeat split; try done. cbn. by apply prefix_app_r.
  - repeat split; try done; cbn; rewrite <-list_fmap_compose;
      apply list_fmap_ext; intros ? c ?; cbn; by case_bool_decide.
Qed.

Lemma framed_run {A} (m : Async A) sched w :
  storeFramed sched → framed (store w) (store (run m sched w).2).
Proof.
  revert sched w. induction m as [a| |k IH|f k IH|k IH|R q k IH]; intros sched w Hs; cbn in *.
  - done.
  - done.
  - by apply IH.
  - by apply (IH sched (mkWorld (f (gateway w)) (store w) (clock w))).
  - by apply IH.
  - assert (Hs' : storeFramed (tl sched)) by (destruct Hs; [constructor|done]).
    assert (Ho : framed (store w) (store (interfere (hd quiet sched) w))).
    { destruct Hs; cbn; [done|auto]. }
    destruct (fault _); [by etrans; [|apply IH]|].
    destruct (exec _ _ _) as [[r db']|] eqn:He; (etrans; [exact Ho|]);
      [|by apply IH].
    etrans; [by eapply exec_framed|]. by apply (IH _ _ (mkWorld _ _ _)).
Qed.

(** X4. No listener of the gateway, and no connection attempt, ever edits
    or deletes what is already stored outside the reactions and sessions:
    accounts, memberships and attachments are left as they are; a channel
    keeps its key, name, kind, topic, position and server (only its activity
    stamp moves); and the message table only grows at its end, every stored
    message staying in place unchanged. *)
Theorem gateway_store_frame jwtVerify sid u sched w :
  storeFramed sched →
  (∀ ev, framed (store w) (store (run (handle sid u ev) sched w).2))
  ∧ framed (store w) (store (run (onDisconnect sid u) sched w).2)
  ∧ (∀ token, framed (store w) (store (run (connect jwtVerify token) sched w).2)).
Proof. intros Hs. repeat split; intros; by apply framed_run. Qed.

Lemma gateway_store_frame_witness :
  framed (store world0)
         (store (run (handle 0%nat (asSocketUser alice) (SendMessage "hello" None))
                     [quiet; quiet] world0).2).
Proof.
  apply (gateway_store_frame jwt0 0%nat (asSocketUser alice) [quiet; quiet] world0).
  repeat (apply Forall_cons_2; [by intros ?|]). apply Forall_nil_2.
Defined.

(** ** Who is told *)

Lemma subscribed_updSocket_ne room sid f g x :
  x ≠ sid → subscribed room (updSocket sid f g) x ↔ subscribed room g x.
Proof. intros Hx. unfold subscribed, updSocket. cbn. by rewrite lookup_alter_ne. Qed.

Lemma others_spec sid room g x :
  x ∈ filter (λ s, s ≠ sid) (subscribers room g) ↔ x ≠ sid ∧ subscribed room g x.
Proof. by rewrite list_elem_of_filter, subscribers_spec. Qed.

Lemma others_NoDup sid room g : NoDup (filter (λ s, s ≠ sid) (subscribers room g)).
Proof. apply NoDup_filter, subscribers_NoDup. Qed.

Lemma truthy_inv o : truthy o = true → ∃ c, o = Some c ∧ c ≠ EmptyString.
Proof.
  destruct o as [c|]; [|done]. cbn. intros H%negb_true_iff%bool_decide_eq_false. eauto.
Qed.

Lemma push_nil ev g : push [] ev g = g.
Proof. destruct g. unfold push. cbn. by rewrite app_nil_r. Qed.

Lemma told_others sid ev w (cur : option string) :
  cur = channelOf (gateway w) sid →
  ∃ to,
    (if truthy cur
     then mkWorld (push (filter (λ s, s ≠ sid)
                           (subscribers (channelRoom (interpolate cur)) (gateway w)))
                        ev (gateway w)) (store w) (clock w)
     else w)
    = mkWorld (push to ev (gateway w)) (store w) (clock w)
    ∧ NoDup to
    ∧ ∀ x, x ∈ to ↔ x ≠ sid ∧ ∃ c, channelOf (gateway w) sid = Some c ∧ c ≠ EmptyString
                                    ∧ subscribed (channelRoom c) (gateway w) x.
Proof.
  intros ->. destruct (truthy _) eqn:Ht.
  - apply truthy_inv in Ht as (c & Hc & Hne). rewrite Hc. cbn.
    eexists. split; [reflexivity|]. split; [apply others_NoDup|].
    intros x. rewrite others_spec. split.
    + intros [? ?]. eauto.
    + intros (? & c' & ? & _ & ?). by simplify_eq.
  - exists []. split; [by rewrite push_nil|]. split; [constructor|].
    intros x. split; [by intros ?%elem_of_nil|].
    intros (_ & c & Hc & Hne & _). rewrite Hc in Ht.
    by rewrite (truthy_Some c Hne) in Ht.
Qed.

Lemma run_told sid cur ev sched w :
  run (if truthy cur then socketToEmit sid (channelRoom (interpolate cur)) ev else Ret tt)
      sched w
  = (Some tt,
     if truthy cur
     then mkWorld (push (filter (λ s, s ≠ sid)
                           (subscribers (channelRoom (interpolate cur)) (gateway w)))
                        ev (gateway w)) (store w) (clock w)
     else w).
Proof. by destruct (truthy cur). Qed.

(** X5. The typing indicators are synchronous and touch neither the store
    nor any socket: all they do is hand one notice to each connection of a
    list [to].  That list holds, each once, exactly the other open
    connections subscribed to the room of the sender's current channel; it
    is empty when the sender has no current channel. *)
Theorem typing_indicators sid u sched w :
  let told ev r :=
    ∃ to, r = (Some tt, mkWorld (push to ev (gateway w)) (store w) (clock w))
      ∧ NoDup to
      ∧ ∀ x, x ∈ to ↔ x ≠ sid ∧ ∃ c, channelOf (gateway w) sid = Some c ∧ c ≠ EmptyString
                                      ∧ subscribed (channelRoom c) (gateway w) x in
  told (EvUserTyping (userId u) (displayName u)) (run (typingStart sid u) sched w)
  ∧ told (EvUserStopTyping (userId u)) (run (typingStop sid u) sched w).
Proof.
  intros told. subst told.
  split.
  - destruct (told_others sid (EvUserTyping (userId u) (displayName u)) w _ eq_refl)
      as (to & Hw & Hnd & Hto).
    exists to. split; [|done]. rewrite <-Hw. apply run_told.
  - destruct (told_others sid (EvUserStopTyping (userId u)) w _ eq_refl)
      as (to & Hw & Hnd & Hto).
    exists to. split; [|done]. rewrite <-Hw. apply run_told.
Qed.

Example typing_scenario :
  outbox (gateway (run (typingStart 0%nat (asSocketUser alice)) [] world0).2)
    = [(1%nat, EvUserTyping None (Some "alice"))]
  ∧ run (typingStart 3%nat (asSocketUser mallory)) [] world0 = (Some tt, world0).
Proof. evaluate. Qed.

Lemma channelOf_closed sid g : channelOf (updSocket sid closed g) sid = channelOf g sid.
Proof.
  unfold channelOf, updSocket. cbn. rewrite lookup_alter_eq.
  by destruct (sockets g !! sid).
Qed.

(** X6. When a connection closes, its socket ends up closed and in no room,
    so that it is in no list of recipients any more; the other sockets and
    the store are as before; and one [user-left] notice goes to each of the
    other open connections subscribed to the room of the channel it sat in,
    to each once and to no one else (to nobody if it sat in no channel). *)
Theorem disconnect_leaves sid u sched w s :
  sockets (gateway w) !! sid = Some s →
  let r := run (onDisconnect sid u) sched w in
  r.1 = Some tt
  ∧ store r.2 = store w ∧ clock r.2 = clock w
  ∧ sockets (gateway r.2) !! sid = Some (closed s)
  ∧ (∀ x, x ≠ sid → sockets (gateway r.2) !! x = sockets (gateway w) !! x)
  ∧ (∀ room, sid ∉ subscribers room (gateway r.2))
  ∧ (sid ∉ everyone (gateway r.2))
  ∧ ∃ to,
      outbox (gateway r.2)
        = outbox (gateway w) ++ ((λ x, (x, EvUserLeft (userId u))) <$> to)
      ∧ NoDup to
      ∧ ∀ x, x ∈ to ↔ x ≠ sid ∧ ∃ c, currentChannel s = Some c ∧ c ≠ EmptyString
                                      ∧ subscribed (channelRoom c) (gateway w) x.
Proof.
  intros Hs r. subst r.
  set (w1 := mkWorld (updSocket sid closed (gateway w)) (store w) (clock w)).
  destruct (told_others sid (EvUserLeft (userId u)) w1 _ eq_refl) as (to & Hw & Hnd & Hto).
  change (run (onDisconnect sid u) sched w)
    with (run (if truthy (channelOf (gateway w1) sid)
               then socketToEmit sid (channelRoom (interpolate (channelOf (gateway w1) sid)))
                                 (EvUserLeft (userId u))
               else Ret tt) sched w1).
  rewrite run_told, Hw. cbn.
  assert (Hsid : alter closed sid (sockets (gateway w)) !! sid = Some (closed s)).
  { by rewrite lookup_alter_eq, Hs. }
  split; [done|]. split; [done|]. split; [done|]. split; [done|].
  split. { intros x Hx. by rewrite lookup_alter_ne. }
  split. { intros room (s' & Hs' & Hc & _)%subscribers_spec. cbn in Hs'.
           rewrite Hsid in Hs'. by simplify_eq. }
  split. { intros (s' & Hs' & Hc)%everyone_spec. cbn in Hs'.
           rewrite Hsid in Hs'. by simplify_eq. }
  exists to. split; [done|]. split; [done|].
  intros x. rewrite Hto. subst w1. cbn. rewrite channelOf_closed.
  unfold channelOf. rewrite Hs. cbn.
  split; intros (Hx & c & Hc & Hne & Hsub); (split; [done|]); exists c;
    (split; [done|]); (split; [done|]); by apply (subscribed_updSocket_ne _ sid closed).
Qed.

Lemma disconnect_leaves_witness :
  outbox (gateway (run (onDisconnect 0%nat (asSocketUser alice)) [] world0).2)
    = [(1%nat, EvUserLeft None)]
  ∧ 0%nat ∉ everyone (gateway (run (onDisconnect 0%nat (asSocketUser alice)) [] world0).2).
Proof.
  destruct (disconnect_leaves 0%nat (asSocketUser alice) [] world0 socketAlice eq_refl)
    as (_ & _ & _ & _ & _ & _ & Hgone & _).
  split; [reflexivity|exact Hgone].
Defined.

(** ** Joining, when it succeeds *)

Global Instance byPosition_total : Total byPosition.
Proof. intros a b. unfold byPosition. lia. Qed.
Global Instance byPosition_trans : Transitive byPosition.
Proof. intros a b c. unfold byPosition. lia. Qed.

(** X7. A [join-server] whose membership check and channel listing both
    succeed.  Before the listing is awaited the socket has the requested
    server as its current one and is subscribed to its room, and it has left
    no room: the rooms of servers joined earlier stay (unlike channel rooms).
    When the listing settles, in the world [w2], the requester alone is
    handed one [server-channels] event; it lists the channels of the server
    as stored then, all of them and each once, in ascending position.  The
    store is not written. *)
Theorem join_server_success sid u serverId t1 t2 sched w :
  let w1 := interfere t1 w in
  let g1 := updSocket sid (withRooms (λ rs, {[serverRoom serverId]} ∪ rs))
              (updSocket sid (withServer (Some serverId)) (gateway w1)) in
  let w2 := interfere t2 (mkWorld g1 (store w1) (clock w1)) in
  fault t1 = false → is_Some (memberRow (store w1) (userId u) serverId) →
  fault t2 = false →
  (∃ rows,
     run (joinServer sid u serverId) (t1 :: t2 :: sched) w
       = (Some tt, emit sid (EvServerChannels (selectChannel <$> rows)) w2)
     ∧ rows ≡ₚ filter (λ c, channel_serverId c = serverId) (channels (store w2))
     ∧ StronglySorted byPosition rows)
  ∧ (∀ s, sockets (gateway w1) !! sid = Some s →
       ∃ s', sockets g1 !! sid = Some s'
             ∧ currentServer s' = Some serverId
             ∧ rooms s' = {[serverRoom serverId]} ∪ rooms s
             ∧ currentChannel s' = currentChannel s ∧ connected s' = connected s)
  ∧ (∀ x, x ≠ sid → sockets g1 !! x = sockets (gateway w1) !! x)
  ∧ outbox g1 = outbox (gateway w1).
Proof.
  intros w1 g1 w2 Hf1 [m Hm] Hf2. split; [|split; [|split]].
  - exists (merge_sort byPosition
              (filter (λ c, channel_serverId c = serverId) (channels (store w2)))).
    split; [|split].
    + unfold joinServer. cbn. fold w1. rewrite Hf1, Hm. cbn. fold g1. fold w2.
      rewrite Hf2. reflexivity.
    + apply merge_sort_Permutation.
    + apply StronglySorted_merge_sort; apply _.
  - intros s Hs. subst g1. cbn. rewrite !lookup_alter_eq, Hs. cbn.
    eexists. split; [reflexivity|]. by cbn.
  - intros x Hx. subst g1. cbn. by rewrite !lookup_alter_ne.
  - done.
Qed.

Lemma join_server_success_witness :
  ∃ rows,
    outbox (gateway (run (joinServer 0%nat (asSocketUser alice) "s1")
                         [quiet; quiet] world0).2)
    = [(0%nat, EvServerChannels (selectChannel <$> rows))]
    ∧ rows ≡ₚ [mkChannel "c2" "random" "TEXT" None 1 "s1" 0;
               mkChannel "c1" "general" "TEXT" (Some "talk") 0 "s1" 0]
    ∧ StronglySorted byPosition rows.
Proof.
  destruct (join_server_success 0%nat (asSocketUser alice) "s1" quiet quiet [] world0)
    as [(rows & Hrun & Hperm & Hsorted) _]; [reflexivity | by eexists | reflexivity |].
  exists rows. rewrite Hrun. split; [reflexivity|]. split; [exact Hperm|exact Hsorted].
Defined.

Example join_server_scenario :
  outbox (gateway (run (joinServer 0%nat (asSocketUser alice) "s1") [] world0).2)
  = [(0%nat, EvServerChannels [mkChannelSelect "c1" "general" "TEXT" (Some "talk") 0;
                               mkChannelSelect "c2" "random" "TEXT" None 1])].
Proof. evaluate. Qed.

(** X8. A [join-channel] that succeeds tells the others in the room, and
    only them.  After the history, the events added are one [user-joined]
    notice for each connection of a list [to], which holds, each once,
    exactly the open connections other than the requester that are
    subscribed to the room of the channel in [w2], the world when the
    history read settles: who entered the room while the history was read
    is told, who left it is not.  If nobody touched the gateway during that
    read, these are the others that were in the room when the access lookup
    settled. *)
Theorem join_channel_notifies_the_others sid u channelId t1 t2 sched w :
  let w1 := interfere t1 w in
  let w2 := interfere t2 (mkWorld (entered sid channelId (gateway w1)) (store w1) (clock w1)) in
  let w' := (run (joinChannel sid u channelId) (t1 :: t2 :: sched) w).2 in
  fault t1 = false →
  is_Some (accessibleChannel (store w1) channelId (userId u)) →
  fault t2 = false →
  ∃ history to,
    outbox (gateway w')
      = outbox (gateway w2) ++ (sid, EvChannelMessages history)
          :: ((λ x, (x, EvUserJoined (userId u) (displayName u))) <$> to)
    ∧ NoDup to
    ∧ (∀ x, x ∈ to ↔ x ≠ sid ∧ subscribed (channelRoom channelId) (gateway w2) x)
    ∧ (gateway w2 = entered sid channelId (gateway w1) →
       ∀ x, x ∈ to ↔ x ≠ sid ∧ subscribed (channelRoom channelId) (gateway w1) x).
Proof.
  intros w1 w2 w' Hf1 Hch Hf2. subst w'.
  rewrite (joinChannel_run sid u channelId t1 t2 sched w Hf1 Hch Hf2). fold w1 w2.
  eexists _, _. split; [cbn; by rewrite <-app_assoc|].
  split; [apply others_NoDup|]. split; [intros x; apply others_spec|].
  intros Hg x. rewrite others_spec, Hg. unfold entered.
  split; intros [Hx Hsub]; (split; [done|]).
  - repeat (apply subscribed_updSocket_ne in Hsub; [|done]).
    destruct (truthy _); [by apply subscribed_updSocket_ne in Hsub|done].
  - repeat (apply subscribed_updSocket_ne; [done|]).
    destruct (truthy _); [by apply subscribed_updSocket_ne|done].
Qed.

Lemma join_channel_notifies_the_others_witness :
  ∃ history to,
    outbox (gateway (run (joinChannel 1%nat (asSocketUser bob) "c1")
                         [quiet; quiet] world0).2)
    = (1%nat, EvChannelMessages history)
        :: ((λ x, (x, EvUserJoined None (Some "bob"))) <$> to)
    ∧ ∀ x, x ∈ to ↔ x ≠ 1%nat ∧ subscribed (channelRoom "c1") gateway0 x.
Proof.
  destruct (join_channel_notifies_the_others 1%nat (asSocketUser bob) "c1" quiet quiet []
              world0) as (history & to & Hout & _ & _ & Hto);
    [reflexivity | by eexists | reflexivity |].
  exists history, to. split; [exact Hout|]. by apply Hto.
Defined.

(** Alice asks for [c2], where nobody sits; Bob enters [c2] while her
    history is read, and is told that she joined. *)
Example join_channel_scenario :
  let bobEnters :=
    mkTick (λ w, mkWorld (entered 1%nat "c2" (gateway w)) (store w) (clock w)) false in
  subscribers (channelRoom "c2") gateway0 = []
  ∧ outbox (gateway (run (joinChannel 0%nat (asSocketUser alice) "c2")
                         [quiet; bobEnters] world0).2)
    = [(0%nat, EvChannelMessages []); (1%nat, EvUserJoined None (Some "alice"))].
Proof. evaluate. Qed.

(** ** The paths of [add-reaction] *)

(** X9. The three awaits of [add-reaction], each resolved or rejected, with
    nobody else active meanwhile.  The row looked for is one for the message
    and the emoji with the [userId] the socket carries: any identity's row
    when it is [undefined], as it is on the sockets the middleware admits,
    the identity's own row were it set.  The write deletes the row found;
    with none found it is to create a row for [userId], and is rejected
    when [userId] is [undefined].  If the lookup
    or the write is rejected the store is as before and the sender alone
    gets the error.  If the write went through and the read of the updated
    reactions is rejected, the sender alone gets the error and nobody is
    told of the change, yet the change stays in the store: nothing is
    undone.  If all three calls resolve, every open connection, whatever
    channel or server it looks at, is handed the reactions of the message as
    stored after the write. *)
Theorem add_reaction_paths sid u messageId emoji f1 f2 f3 sched w :
  let r := run (addReaction sid u messageId emoji)
               (mkTick id f1 :: mkTick id f2 :: mkTick id f3 :: sched) w in
  let failed db :=
    (Some tt, emit sid (EvError "Failed to add reaction")
                   (mkWorld (gateway w) db (clock w))) in
  let found := reactionRow (store w) (userId u) messageId emoji in
  let written :=
    match found, userId u with
    | Some x, _ =>
        Some (set_reactions (filter (λ y, reaction_id y ≠ reaction_id x)) (store w))
    | None, Some key =>
        Some (bump_nextId
                (set_reactions
                   (λ l, l ++ [mkReaction (newId (nextId (store w))) emoji key messageId])
                   (store w)))
    | None, None => None
    end in
  (∀ x, found = Some x →
     x ∈ reactions (store w) ∧ whereEq (userId u) (reaction_userId x)
     ∧ reaction_messageId x = messageId ∧ reaction_emoji x = emoji)
  ∧ (f1 || f2 = true ∨ written = None → r = failed (store w))
  ∧ (∀ db', f1 = false → f2 = false → written = Some db' → f3 = true → r = failed db')
  ∧ (∀ db', f1 = false → f2 = false → written = Some db' → f3 = false →
       r = (Some tt,
            mkWorld (push (everyone (gateway w))
                       (EvMessageReactionsUpdated messageId
                          (viewReaction db' <$> reactionsOf db' messageId))
                       (gateway w)) db' (clock w))).
Proof.
  intros r failed found written. subst r failed written.
  assert (Hfound : ∀ x, found = Some x →
     x ∈ reactions (store w) ∧ whereEq (userId u) (reaction_userId x)
     ∧ reaction_messageId x = messageId ∧ reaction_emoji x = emoji).
  { intros x. apply reactionRow_Some. }
  split; [exact Hfound|].
  assert (Hdel : ∀ x, found = Some x →
            bool_decide (Exists (λ y, reaction_id y = reaction_id x) (reactions (store w)))
            = true).
  { intros x [Hin _]%Hfound. apply bool_decide_eq_true_2, Exists_exists. eauto. }
  unfold addReaction. cbn. fold found.
  destruct found as [x|] eqn:Hx; cbn.
  - rewrite (Hdel x eq_refl). split; [|split].
    + intros [Hf|[=]]. destruct f1; cbn; [done|]. cbn in Hf. by rewrite Hf.
    + by intros db' -> -> [= <-] ->.
    + by intros db' -> -> [= <-] ->.
  - destruct (userId u) as [key|]; cbn; (split; [|split]).
    + intros [Hf|[=]]. destruct f1; cbn; [done|]. cbn in Hf. by rewrite Hf.
    + by intros db' -> -> [= <-] ->.
    + by intros db' -> -> [= <-] ->.
    + intros _. destruct f1; cbn; [done|]. by destruct f2.
    + by intros db' _ _ [=].
    + by intros db' _ _ [=].
Qed.

Lemma add_reaction_paths_witness :
  run (addReaction 3%nat (asSocketUser mallory) "m1" "fire")
      [mkTick id false; mkTick id false; mkTick id true] world1
  = (Some tt, emit 3%nat (EvError "Failed to add reaction")
                (mkWorld gateway0 (set_reactions (λ _, []) db0) 100)).
Proof.
  destruct (add_reaction_paths 3%nat (asSocketUser mallory) "m1" "fire" false false true []
              world1) as (_ & _ & H & _).
  apply (H (set_reactions (λ _, []) db0)); reflexivity.
Defined.

(** ** Sessions and the handshake *)

Lemma sessionRow_Some db token s :
  sessionRow db token = Some s → s ∈ sessions db ∧ session_token s = token.
Proof.
  unfold sessionRow. intros [Hin Hp]%find_some.
  apply bool_decide_eq_true in Hp. by apply list_elem_of_In in Hin.
Qed.

(** X10. [validateSession] fails closed.  Under any schedule, if it answers
    with a payload then the token verified, neither call to the store was
    rejected, the store held a session with this token when the lookup
    settled, that session had not expired, its account was there and the
    payload was built from that account (not from the claims the token
    carries), and the session was still there when its use was recorded. *)
Theorem validate_session_sound jwtVerify token t1 t2 sched w p :
  (run (validateSession jwtVerify token) (t1 :: t2 :: sched) w).1 = Some (Some p) →
  let w1 := interfere t1 w in
  is_Some (jwtVerify (clock w) token)
  ∧ fault t1 = false ∧ fault t2 = false
  ∧ ∃ s usr,
      sessionRow (store w1) token = Some s
      ∧ session_token s = token
      ∧ ¬ session_expiresAt s < clock w1
      ∧ userById (store w1) (session_userId s) = Some usr
      ∧ p = payloadOf usr
      ∧ Exists (λ s', session_id s' = session_id s) (sessions (store (interfere t2 w1))).
Proof.
  intros H w1. subst w1. revert H. unfold validateSession, verifyToken. cbn.
  destruct (jwtVerify (clock w) token) as [p0|] eqn:Hj; cbn; [|done].
  intros H. split; [done|]. revert H.
  generalize (interfere t1 w). clear Hj w. intros w1.
  destruct (fault t1); cbn; [done|].
  destruct (sessionRow (store w1) token) as [s|] eqn:Hs; cbn; [|done].
  case_bool_decide as Hexp; cbn; [by repeat case_match|].
  destruct (fault t2); cbn; [done|].
  case_bool_decide as Hex; cbn; [|done].
  destruct (userById (store w1) (session_userId s)) as [usr|] eqn:Hu; cbn; [|done].
  intros [= <-]. split; [done|]. split; [done|].
  exists s, usr. split; [done|]. split; [by apply sessionRow_Some in Hs as [_ ?]|].
  done.
Qed.

Lemma validate_session_sound_witness :
  is_Some (jwt0 (clock world0) "tokA") ∧ is_Some (sessionRow db0 "tokA").
Proof.
  destruct (validate_session_sound jwt0 "tokA" quiet quiet [] world0 (payloadOf alice))
    as (Hj & _ & _ & s & usr & Hs & _); [reflexivity|].
  split; [exact Hj|]. exists s. exact Hs.
Defined.

Lemma find_filter_keeps {A} (P : A → bool) (Q : A → Prop) `{∀ x, Decision (Q x)} (l : list A) :
  (∀ x, x ∈ l → P x = true → Q x) → find P (filter Q l) = find P l.
Proof.
  induction l as [|a l IH]; intros HPQ; [done|].
  rewrite filter_cons. cbn. destruct (decide (Q a)) as [Hq|Hq]; cbn.
  - destruct (P a); [done|]. apply IH. intros x Hx. apply HPQ. by right.
  - destruct (P a) eqn:Hp.
    + destruct Hq. apply HPQ; [left|done].
    + apply IH. intros x Hx. apply HPQ. by right.
Qed.

Lemma find_fmap_stable {A} (P : A → bool) (f : A → A) (l : list A) :
  (∀ x, P (f x) = P x) → find P (f <$> l) = f <$> find P l.
Proof.
  intros HP. induction l as [|a l IH]; [done|]. cbn. rewrite HP.
  by destruct (P a).
Qed.

Lemma NoDup_fmap_eq {A B} (f : A → B) (l : list A) x y :
  NoDup (f <$> l) → x ∈ l → y ∈ l → f x = f y → x = y.
Proof.
  induction l as [|a l IH]; [by intros _ ?%elem_of_nil|].
  rewrite fmap_cons, NoDup_cons. intros [Ha Hnd] Hx Hy Hf.
  apply elem_of_cons in Hx as [->|Hx]; apply elem_of_cons in Hy as [->|Hy]; try done.
  - destruct Ha. rewrite Hf. by apply list_elem_of_fmap_2.
  - destruct Ha. rewrite <-Hf. by apply list_elem_of_fmap_2.
  - by apply IH.
Qed.

Lemma sessionRow_None db token :
  sessionRow db token = None ↔ token ∉ session_token <$> sessions db.
Proof.
  unfold sessionRow. split.
  - intros Hn (s & -> & Hin)%list_elem_of_fmap.
    apply list_elem_of_In in Hin. apply (find_none _ _ Hn) in Hin.
    by apply bool_decide_eq_false in Hin.
  - intros Hn. destruct (find _ _) as [s|] eqn:Hs; [|done].
    apply (sessionRow_Some db) in Hs as [Hin Ht]. destruct Hn.
    rewrite <-Ht. by apply list_elem_of_fmap_2.
Qed.

(** Deleting rows keeps the session table well formed. *)
Lemma sessions_ok_filter (P : SessionRow → Prop) `{∀ x, Decision (P x)} db :
  sessions_ok db → sessions_ok (set_sessions (filter P) db).
Proof.
  intros (Hid & Htok & Hfresh). unfold sessions_ok. cbn.
  assert (Hsub : ∀ B (f : SessionRow → B),
            f <$> filter P (sessions db) `sublist_of` f <$> sessions db).
  { intros. apply fmap_sublist, sublist_filter. }
  split; [exact (sublist_NoDup _ _ Hid (Hsub _ _))|].
  split; [exact (sublist_NoDup _ _ Htok (Hsub _ _))|].
  intros n Hn Hin. apply (Hfresh n Hn). eapply elem_of_sublist; [done|]. apply Hsub.
Qed.

(** Recording the use of a session keeps the table well formed. *)
Lemma sessions_ok_touch id t db :
  sessions_ok db →
  sessions_ok (set_sessions
                 (fmap (λ s, if bool_decide (session_id s = id) then touchSession t s else s))
                 db).
Proof.
  intros Hok. unfold sessions_ok in *. cbn.
  assert (Hid : ∀ l : list SessionRow,
            session_id <$> ((λ s, if bool_decide (session_id s = id)
                                  then touchSession t s else s) <$> l) = session_id <$> l).
  { intros l. rewrite <-list_fmap_compose. apply list_fmap_ext.
    intros ? s _. cbn. by case_bool_decide. }
  assert (Htok : ∀ l : list SessionRow,
            session_token <$> ((λ s, if bool_decide (session_id s = id)
                                     then touchSession t s else s) <$> l)
            = session_token <$> l).
  { intros l. rewrite <-list_fmap_compose. apply list_fmap_ext.
    intros ? s _. cbn. by case_bool_decide. }
  by rewrite Hid, Htok.
Qed.

(** X11. A session found expired is removed.  When the token verifies and
    nothing is rejected, [validateSession] on a session past its expiry
    answers with no payload and deletes that session's row, leaving the
    gateway alone.  On a well-formed session table the token is then
    unknown, every other token finds the session it found before, and the
    table is still well formed. *)
Theorem expired_session_is_removed jwtVerify token sched w s :
  is_Some (jwtVerify (clock w) token) →
  sessionRow (store w) token = Some s → session_expiresAt s < clock w →
  let r := run (validateSession jwtVerify token) (quiet :: quiet :: sched) w in
  r = (Some None,
       mkWorld (gateway w)
               (set_sessions (filter (λ x, session_id x ≠ session_id s)) (store w))
               (clock w))
  ∧ (sessions_ok (store w) →
       sessionRow (store r.2) token = None
       ∧ (∀ token', token' ≠ token →
            sessionRow (store r.2) token' = sessionRow (store w) token')
       ∧ sessions_ok (store r.2)).
Proof.
  intros [p0 Hj] Hs Hexp r.
  assert (Hr : r = (Some None,
       mkWorld (gateway w)
               (set_sessions (filter (λ x, session_id x ≠ session_id s)) (store w))
               (clock w))).
  { subst r. unfold validateSession, verifyToken. cbn. rewrite Hj. cbn. rewrite Hs. cbn.
    rewrite bool_decide_eq_true_2 by done. cbn.
    rewrite bool_decide_eq_true_2; [done|].
    apply sessionRow_Some in Hs as [Hin _]. apply Exists_exists. eauto. }
  split; [done|]. rewrite Hr. clear r Hr.
  intros Hok. pose proof Hok as (Hid & Htok & _).
  apply sessionRow_Some in Hs as [Hin Ht].
  split; [|split].
  - apply sessionRow_None. cbn.
    intros (x & Hx & [Hne Hxin]%list_elem_of_filter)%list_elem_of_fmap.
    destruct Hne. f_equal.
    apply (NoDup_fmap_eq session_token (sessions (store w))); [done..|congruence].
  - intros token' Hne. unfold sessionRow. cbn.
    apply (find_filter_keeps _ (λ x, session_id x ≠ session_id s)).
    intros x Hx Hp%bool_decide_eq_true Heq. destruct Hne.
    assert (x = s) as -> by by apply (NoDup_fmap_eq session_id (sessions (store w))).
    congruence.
  - by apply sessions_ok_filter.
Qed.

Lemma db0_sessions_ok : sessions_ok db0.
Proof.
  split; [|split].
  - by apply (bool_decide_unpack _).
  - by apply (bool_decide_unpack _).
  - intros n _ Hin. cbn in Hin. unfold newId in Hin.
    repeat (apply elem_of_cons in Hin as [Hin|Hin]; [discriminate Hin|]).
    by apply elem_of_nil in Hin.
Qed.

Lemma expired_session_is_removed_witness :
  sessionRow (store (run (validateSession jwt0 "tokOld") [quiet; quiet] world0).2) "tokOld"
  = None.
Proof.
  destruct (expired_session_is_removed jwt0 "tokOld" [] world0
              (mkSession "se2" "tokOld" "u2" 5 0)) as [_ H];
    [by eexists | reflexivity | reflexivity |].
  apply H, db0_sessions_ok.
Defined.

Lemma validate_run jwtVerify token sched w s usr :
  is_Some (jwtVerify (clock w) token) →
  sessionRow (store w) token = Some s → ¬ session_expiresAt s < clock w →
  userById (store w) (session_userId s) = Some usr →
  run (validateSession jwtVerify token) (quiet :: quiet :: sched) w
  = (Some (Some (payloadOf usr)),
     mkWorld (gateway w)
       (set_sessions (fmap (λ x, if bool_decide (session_id x = session_id s)
                                 then touchSession (clock w) x else x)) (store w))
       (clock w)).
Proof.
  intros [p0 Hj] Hs Hexp Hu.
  unfold validateSession, verifyToken. cbn. rewrite Hj. cbn. rewrite Hs. cbn.
  rewrite bool_decide_eq_false_2 by done. cbn.
  rewrite bool_decide_eq_true_2.
  - cbn. rewrite Hu. reflexivity.
  - apply sessionRow_Some in Hs as [Hin _]. apply Exists_exists. eauto.
Qed.

(** X12. A valid session stays valid.  When the token verifies, its session
    has not expired and the account exists, [validateSession] answers with
    the payload of the account and writes nothing but the [lastUsed] stamp
    of that session.  Validating the same token again, at any later time
    at which the token still verifies and the session has not expired,
    gives the same payload. *)
Theorem valid_session_stays_valid jwtVerify token sched w s usr :
  is_Some (jwtVerify (clock w) token) →
  sessionRow (store w) token = Some s → ¬ session_expiresAt s < clock w →
  userById (store w) (session_userId s) = Some usr →
  let r := run (validateSession jwtVerify token) (quiet :: quiet :: sched) w in
  r.1 = Some (Some (payloadOf usr))
  ∧ gateway r.2 = gateway w
  ∧ store r.2
    = set_sessions (fmap (λ x, if bool_decide (session_id x = session_id s)
                               then touchSession (clock w) x else x)) (store w)
  ∧ ∀ t' sched',
      is_Some (jwtVerify t' token) → ¬ session_expiresAt s < t' →
      (run (validateSession jwtVerify token) (quiet :: quiet :: sched')
           (mkWorld (gateway r.2) (store r.2) t')).1
      = Some (Some (payloadOf usr)).
Proof.
  intros Hj Hs Hexp Hu r. subst r. rewrite (validate_run _ _ _ _ s usr) by done.
  split; [done|]. split; [done|]. split; [done|]. cbn [fst snd gateway store].
  intros t' sched' Hj' Hexp'.
  set (touch := λ x, if bool_decide (session_id x = session_id s)
                     then touchSession (clock w) x else x).
  rewrite (validate_run _ _ _ _ (touch s) usr); [done|done|..].
  - unfold sessionRow. cbn. fold touch. rewrite find_fmap_stable.
    + fold (sessionRow (store w) token). by rewrite Hs.
    + intros x. unfold touch. by destruct (bool_decide (session_id x = _)).
  - unfold touch. by rewrite bool_decide_eq_true_2.
  - unfold touch. by rewrite bool_decide_eq_true_2.
Qed.

Lemma valid_session_stays_valid_witness :
  (run (validateSession jwt0 "tokA") [quiet; quiet]
       (mkWorld gateway0
          (store (run (validateSession jwt0 "tokA") [quiet; quiet] world0).2) 999)).1
  = Some (Some (payloadOf alice)).
Proof.
  destruct (valid_session_stays_valid jwt0 "tokA" [] world0
              (mkSession "se1" "tokA" "u1" 1000 0) alice) as (_ & _ & _ & H);
    [by eexists | reflexivity | cbn; lia | reflexivity |].
  apply (H 999 []); [by eexists | cbn; lia].
Defined.

(** X13. The handshake admits only on a valid session and an existing
    account, and that is all it takes.  A connection attempt is accepted
    with the identity [u] exactly when the token is present and not empty,
    [validateSession] answered with a payload, the account lookup was not
    rejected and found the account of the payload, and [u] is the object
    the middleware builds from the selection of that account, which has the
    key of the account under [id] and no [userId]; the world is then the
    one the lookup left, with one more socket, opened for [u]. *)
Theorem connect_accepts jwtVerify token t1 t2 t3 sched w u w' :
  run (connect jwtVerify token) (t1 :: t2 :: t3 :: sched) w = (Some (Accept u), w')
  ↔ ∃ tok p w2 row,
      token = Some tok ∧ tok ≠ EmptyString
      ∧ run (validateSession jwtVerify tok) [t1; t2] w = (Some (Some p), w2)
      ∧ fault t3 = false
      ∧ userById (store (interfere t3 w2)) (jwt_userId p) = Some row
      ∧ u = asSocketUser row
      ∧ socketUser_id u = user_id row ∧ userId u = None
      ∧ w' = mkWorld (openSocket u (gateway (interfere t3 w2)))
                     (store (interfere t3 w2)) (clock (interfere t3 w2)).
Proof.
  unfold connect, authMiddleware.
  destruct (truthy token) eqn:Ht; cbn [negb]; cycle 1.
  { split; [done|]. intros (tok & ? & ? & ? & -> & Hne & _).
    by rewrite (truthy_Some tok Hne) in Ht. }
  apply truthy_inv in Ht as (tok & -> & Hne).
  assert (Hex : ∀ P : string → JWTPayload → World → UserRow → Prop,
            (∃ p w2 row, P tok p w2 row) ↔
            (∃ tok' p w2 row, Some tok = Some tok' ∧ tok' ≠ EmptyString ∧ P tok' p w2 row)).
  { intros P. split.
    - intros (p & w2 & row & HP). by exists tok, p, w2, row.
    - intros (tok' & p & w2 & row & [= <-] & _ & HP). eauto. }
  rewrite <-(Hex (λ tok p w2 row, _ ∧ _ ∧ _ ∧ _ ∧ _ ∧ _ ∧ _)). clear Hex.
  unfold validateSession, verifyToken. cbn.
  destruct (jwtVerify (clock w) tok) as [p0|]; cbn;
    [|split; [done|by intros (?&?&?&?&_)]].
  generalize (interfere t1 w). clear w. intros w1.
  destruct (fault t1); cbn; [split; [done|by intros (?&?&?&?&_)]|].
  destruct (sessionRow (store w1) tok) as [s|]; cbn;
    [|split; [done|by intros (?&?&?&?&_)]].
  case_bool_decide; cbn.
  { repeat case_match; cbn; (split; [done|by intros (?&?&?&?&_)]). }
  destruct (fault t2); cbn; [split; [done|by intros (?&?&?&?&_)]|].
  case_bool_decide; cbn; [|split; [done|by intros (?&?&?&?&_)]].
  destruct (userById (store w1) (session_userId s)) as [usr|]; cbn;
    [|split; [done|by intros (?&?&?&?&_)]].
  match goal with |- context [interfere t3 ?w0] => set (w2 := w0) end.
  destruct (fault t3); cbn; [split; [done|by intros (?&?&?&?&?&_)]|].
  destruct (userById (store (interfere t3 w2)) (user_id usr)) as [row|] eqn:Hrow; cbn.
  - split.
    + intros [= <- <-]. by exists (payloadOf usr), w2, row.
    + intros (p & w2' & row' & [= <- <-] & _ & Hrow' & -> & _ & _ & ->).
      cbn in Hrow'. rewrite Hrow in Hrow'. by simplify_eq.
  - split; [done|]. intros (p & w2' & row' & [= <- <-] & _ & Hrow' & _).
    cbn in Hrow'. rewrite Hrow in Hrow'. done.
Qed.

Example connect_scenario :
  (run (connect jwt0 (Some "tokA")) [] world0).1 = Some (Accept (asSocketUser alice))
  ∧ socketIds (gateway (run (connect jwt0 (Some "tokA")) [] world0).2)
    = [4%nat; 2%nat; 3%nat; 1%nat; 0%nat].
Proof. evaluate. Qed.

Ltac rejected :=
  intros [= <-];
  (split; [apply list_elem_of_In; cbn; tauto|]);
  (split; [try done|]);
  try (intros (? & ? & ? & ?); done).

(** X14. The handshake knows four refusals and no other, and the fourth,
    "Authentication failed", which is the answer of the [catch], is given
    in one situation only: the session was valid, and it is the lookup of
    the account that was rejected. *)
Theorem connect_rejections jwtVerify token t1 t2 t3 sched w reason :
  (run (connect jwtVerify token) (t1 :: t2 :: t3 :: sched) w).1 = Some (Reject reason) →
  reason ∈ rejections
  ∧ (reason = "Authentication failed"
     ↔ truthy token = true ∧ fault t3 = true
       ∧ ∃ p, (run (validateSession jwtVerify (default EmptyString token)) [t1; t2] w).1
              = Some (Some p)).
Proof.
  unfold connect, authMiddleware.
  destruct (truthy token) eqn:Ht; cbn [negb]; cycle 1.
  { cbn. rejected. }
  apply truthy_inv in Ht as (tok & -> & Hne).
  unfold validateSession, verifyToken. cbn.
  destruct (jwtVerify (clock w) tok) as [p0|]; cbn; [|rejected].
  generalize (interfere t1 w). clear w. intros w1.
  destruct (fault t1); cbn; [rejected|].
  destruct (sessionRow (store w1) tok) as [s|]; cbn; [|rejected].
  case_bool_decide; cbn.
  { repeat case_match; cbn; rejected. }
  destruct (fault t2); cbn; [rejected|].
  case_bool_decide; cbn; [|rejected].
  destruct (userById (store w1) (session_userId s)) as [usr|]; cbn; [|rejected].
  destruct (fault t3); cbn.
  - rejected. intros _. split; [done|]. split; [done|]. by eexists.
  - case_match; cbn; [done|]. rejected.
Qed.

Lemma connect_rejections_witness :
  (run (connect jwt0 (Some "tokA")) [quiet; quiet; failing] world0).1
  = Some (Reject "Authentication failed")
  ∧ run (validateSession jwt0 "tokA") [quiet; quiet] world0
    = run (validateSession jwt0 "tokA") [quiet; quiet; failing] world0
  ∧ ∃ p, (run (validateSession jwt0 "tokA") [quiet; quiet] world0).1 = Some (Some p).
Proof.
  split; [reflexivity|]. split; [reflexivity|].
  apply (connect_rejections jwt0 (Some "tokA") quiet quiet failing [] world0
           "Authentication failed"); reflexivity.
Defined.

(** ** Sessions created and destroyed *)

Lemma sessionRow_filter (P : SessionRow → Prop) `{∀ x, Decision (P x)} db token :
  NoDup (session_token <$> sessions db) →
  sessionRow (set_sessions (filter P) db) token
  = s ← sessionRow db token; if decide (P s) then Some s else None.
Proof.
  intros Hnd. destruct (sessionRow db token) as [s|] eqn:Hs; cbn -[sessionRow].
  - pose proof Hs as [Hin Ht]%sessionRow_Some. destruct (decide (P s)) as [Hp|Hp].
    + rewrite <-Hs. unfold sessionRow. cbn. apply (find_filter_keeps _ P).
      intros x Hx Hxt%bool_decide_eq_true.
      by rewrite (NoDup_fmap_eq session_token (sessions db) x s) by congruence.
    + apply sessionRow_None.
      intros (x & Hx & [Hpx Hxin]%list_elem_of_filter)%list_elem_of_fmap.
      destruct Hp.
      by rewrite <-(NoDup_fmap_eq session_token (sessions db) x s) by congruence.
  - apply sessionRow_None. apply sessionRow_None in Hs.
    intros Hin. destruct Hs. eapply elem_of_sublist; [done|].
    apply fmap_sublist, sublist_filter.
Qed.

Lemma verdict_run jwtVerify token sched w :
  (run (validateSession jwtVerify token) (quiet :: quiet :: sched) w).1
  = Some (verdict jwtVerify (clock w) (store w) token).
Proof.
  unfold validateSession, verifyToken, verdict. cbn.
  destruct (jwtVerify (clock w) token) as [p0|]; cbn; [|done].
  destruct (sessionRow (store w) token) as [s|] eqn:Hs; cbn; [|done].
  assert (Hex : Exists (λ x, session_id x = session_id s) (sessions (store w))).
  { apply sessionRow_Some in Hs as [Hin _]. apply Exists_exists. eauto. }
  destruct (bool_decide (session_expiresAt s < clock w)); cbn;
    rewrite (bool_decide_eq_true_2 _ Hex); cbn; [done|].
  by destruct (userById _ _).
Qed.

Lemma find_app_miss {A} (P : A → bool) (l1 l2 : list A) :
  find P l1 = None → find P (l1 ++ l2) = find P l2.
Proof.
  induction l1 as [|a l1 IH]; [done|]. cbn. destruct (P a); [done|]. exact IH.
Qed.

Lemma createSession_Some jwtSign sevenDaysAfter now userId db token db' :
  createSession jwtSign sevenDaysAfter now userId db = Some (token, db') →
  token = jwtSign now (mkJWTPayload userId EmptyString EmptyString false)
  ∧ (token ∉ session_token <$> sessions db)
  ∧ db' = bump_nextId (set_sessions
            (λ l, l ++ [mkSession (newId (nextId db)) token userId (sevenDaysAfter now) now])
            db).
Proof.
  unfold createSession, sessionCreate, generateToken. cbn.
  case_bool_decide as Hex; cbn; [done|]. intros [= <- <-].
  split; [done|]. split; [|done].
  intros (s & Hs & Hin)%list_elem_of_fmap. apply Hex, Exists_exists. eauto.
Qed.

Lemma sessions_ok_create id token userId expiresAt t db :
  sessions_ok db → id = newId (nextId db) → token ∉ session_token <$> sessions db →
  sessions_ok (bump_nextId (set_sessions
                 (λ l, l ++ [mkSession id token userId expiresAt t]) db)).
Proof.
  intros (Hid & Htok & Hfresh) -> Hnew. unfold sessions_ok. cbn.
  rewrite !fmap_app. cbn. split; [|split].
  - apply NoDup_app. split; [done|]. split; [|apply NoDup_singleton].
    intros x Hx ->%list_elem_of_singleton. by apply (Hfresh (nextId db)).
  - apply NoDup_app. split; [done|]. split; [|apply NoDup_singleton].
    by intros x Hx ->%list_elem_of_singleton.
  - intros n Hn [Hin|Hin%list_elem_of_singleton]%elem_of_app.
    + apply (Hfresh n); [lia|done].
    + apply (inj newId) in Hin. lia.
Qed.

Lemma sessions_ok_next db : sessions_ok db → sessions_ok (bump_nextId db).
Proof.
  intros (Hid & Htok & Hfresh). split; [done|]. split; [done|].
  intros n Hn. apply Hfresh. cbn in Hn. lia.
Qed.

Lemma exec_sessions_ok t {R} (q : Prisma R) db r db' :
  sessions_ok db → exec t q db = Some (r, db') → sessions_ok db'.
Proof.
  intros Hok. destruct q; cbn; intros; repeat case_bool_decide; repeat case_match;
    simplify_eq; try done.
  - by apply (sessions_ok_next (set_messages _ db)).
  - by apply (sessions_ok_next (set_reactions _ db)).
  - by apply sessions_ok_filter.
  - by apply sessions_ok_touch.
Qed.

Lemma sessions_ok_run {A} (m : Async A) sched w :
  sessionsKept sched → sessions_ok (store w) → sessions_ok (store (run m sched w).2).
Proof.
  revert sched w. induction m as [a| |k IH|f k IH|k IH|R q k IH]; intros sched w Hs Hok; cbn in *.
  - done.
  - done.
  - by apply IH.
  - by apply (IH sched (mkWorld (f (gateway w)) (store w) (clock w))).
  - by apply IH.
  - assert (Hs' : sessionsKept (tl sched)) by (destruct Hs; [constructor|done]).
    assert (Ho : sessions_ok (store (interfere (hd quiet sched) w))).
    { destruct Hs; cbn; [done|auto]. }
    destruct (fault _); [by apply IH|].
    destruct (exec _ _ _) as [[r db']|] eqn:He; [|by apply IH].
    apply (IH _ _ (mkWorld _ _ _)); [done|]. by eapply exec_sessions_ok.
Qed.

(** X16. The session table stays well formed (unique keys, unique tokens,
    unused keys ahead).  Creating a session, destroying one or all of an
    account, and the cleanup of expired sessions keep it so; and so does
    every run of [validateSession], of a connection attempt and of a
    listener of the gateway, as long as the others keep it so while the
    code is suspended. *)
Theorem session_table_stays_well_formed jwtSign sevenDaysAfter jwtVerify db :
  sessions_ok db →
  (∀ now userId token db',
     createSession jwtSign sevenDaysAfter now userId db = Some (token, db') →
     sessions_ok db')
  ∧ (∀ token db', destroySession token db = Some (tt, db') → sessions_ok db')
  ∧ (∀ userId db', destroyAllSessions userId db = Some (tt, db') → sessions_ok db')
  ∧ (∀ now db', cleanupExpiredSessions now db = Some (tt, db') → sessions_ok db')
  ∧ (∀ sched w, sessionsKept sched → store w = db →
       (∀ token, sessions_ok (store (run (validateSession jwtVerify token) sched w).2))
       ∧ (∀ token, sessions_ok (store (run (connect jwtVerify token) sched w).2))
       ∧ (∀ sid u ev, sessions_ok (store (run (handle sid u ev) sched w).2))).
Proof.
  intros Hok. split; [|split; [|split; [|split]]].
  - intros now userId token db' (-> & Hnew & ->)%createSession_Some.
    by apply sessions_ok_create.
  - unfold destroySession. intros token db'. case_bool_decide; [|done].
    intros [= <-]. by apply sessions_ok_filter.
  - intros userId db' [= <-]. by apply sessions_ok_filter.
  - intros now db' [= <-]. by apply sessions_ok_filter.
  - intros sched w Hs <-. repeat split; intros; by apply sessions_ok_run.
Qed.

Lemma session_table_stays_well_formed_witness :
  sessions_ok (store (run (validateSession jwt0 "tokOld") [quiet; failing] world0).2).
Proof.
  destruct (session_table_stays_well_formed (λ _ _, "tok") (λ t, t + 604800000) jwt0 db0
              db0_sessions_ok) as (_ & _ & _ & _ & H).
  apply (H [quiet; failing] world0); [|reflexivity].
  repeat (apply Forall_cons_2; [by intros ?|]). apply Forall_nil_2.
Defined.

(** X17. A session that was just created validates.  The token
    [createSession] returns, once it verifies and until the expiry seven
    days later, makes [validateSession] answer with the payload of the
    account as stored: its address, name and administrator flag, rather
    than the empty ones the token was signed with. *)
Theorem created_session_validates jwtSign sevenDaysAfter jwtVerify
    now userId db token db' usr t g sched :
  createSession jwtSign sevenDaysAfter now userId db = Some (token, db') →
  userById db userId = Some usr →
  is_Some (jwtVerify t token) → ¬ sevenDaysAfter now < t →
  token = jwtSign now (mkJWTPayload userId EmptyString EmptyString false)
  ∧ (run (validateSession jwtVerify token) (quiet :: quiet :: sched) (mkWorld g db' t)).1
    = Some (Some (payloadOf usr)).
Proof.
  intros (Htok & Hnew & ->)%createSession_Some Hu [p0 Hj] Hexp. split; [done|].
  rewrite verdict_run. unfold verdict. cbn -[sessionRow userById]. rewrite Hj.
  cbn -[sessionRow userById].
  assert (Hrow : sessionRow
            (bump_nextId (set_sessions
               (λ l, l ++ [mkSession (newId (nextId db)) token userId (sevenDaysAfter now) now])
               db)) token
            = Some (mkSession (newId (nextId db)) token userId (sevenDaysAfter now) now)).
  { unfold sessionRow. cbn. rewrite find_app_miss.
    - cbn. by rewrite bool_decide_eq_true_2.
    - by apply sessionRow_None. }
  rewrite Hrow. cbn -[userById]. rewrite bool_decide_eq_false_2 by done.
  unfold userById in *. cbn. by rewrite Hu.
Qed.

Lemma created_session_validates_witness :
  (run (validateSession (λ _ tok, if bool_decide (tok = "tokB") then Some (payloadOf bob)
                                  else None) "tokB")
       [quiet; quiet]
       (mkWorld gateway0
          (bump_nextId (set_sessions (λ l, l ++ [mkSession "c0" "tokB" "u2" 604800100 100])
                                     db0)) 500)).1
  = Some (Some (payloadOf bob)).
Proof.
  apply (created_session_validates (λ _ _, "tokB") (λ t, t + 604800000)
           (λ _ tok, if bool_decide (tok = "tokB") then Some (payloadOf bob) else None)
           100 "u2" db0 "tokB" _ bob 500 gateway0 []);
    [reflexivity | reflexivity | by eexists | cbn; lia].
Defined.

Lemma validate_unknown jwtVerify token sched w :
  storeKept sched → sessionRow (store w) token = None →
  (run (validateSession jwtVerify token) sched w).1 = Some None.
Proof.
  intros Hs Hrow. unfold validateSession, verifyToken. cbn.
  destruct (jwtVerify (clock w) token) as [p0|]; cbn; [|done].
  assert (Ho : store (interfere (hd quiet sched) w) = store w).
  { destruct Hs; cbn; [done|auto]. }
  destruct (fault _); cbn; [done|]. by rewrite Ho, Hrow.
Qed.

(** X18. Destroying a session signs its token out.  [destroySession] is
    rejected exactly when no session has the token.  Otherwise the token is
    unknown afterwards, every other token finds the session it found
    before, and [validateSession] refuses the token under every schedule
    that leaves the store alone. *)
Theorem destroyed_session_is_invalid jwtVerify token db :
  (destroySession token db = None ↔ sessionRow db token = None)
  ∧ ∀ db', destroySession token db = Some (tt, db') →
      sessionRow db' token = None
      ∧ (∀ token', token' ≠ token → sessionRow db' token' = sessionRow db token')
      ∧ ∀ sched w, storeKept sched → store w = db' →
          (run (validateSession jwtVerify token) sched w).1 = Some None.
Proof.
  unfold destroySession. split.
  - rewrite sessionRow_None. case_bool_decide as Hex; split; try done.
    + intros Hn. destruct Hn. apply Exists_exists in Hex as (s & Hin & <-).
      by apply list_elem_of_fmap_2.
    + intros _ (s & -> & Hin)%list_elem_of_fmap. apply Hex, Exists_exists. eauto.
  - intros db'. case_bool_decide; [|done]. intros [= <-].
    assert (Hgone : sessionRow (set_sessions (filter (λ s, session_token s ≠ token)) db) token
                    = None).
    { apply sessionRow_None.
      by intros (s & -> & [Hne _]%list_elem_of_filter)%list_elem_of_fmap. }
    split; [done|]. split.
    + intros token' Hne. unfold sessionRow. cbn.
      apply (find_filter_keeps _ (λ s, session_token s ≠ token)).
      intros x _ Hx%bool_decide_eq_true. congruence.
    + intros sched w Hs Hw. apply validate_unknown; [done|]. by rewrite Hw.
Qed.

Lemma destroyed_session_is_invalid_witness :
  (run (validateSession jwt0 "tokA") [quiet; quiet]
       (mkWorld gateway0 (set_sessions (filter (λ s, session_token s ≠ "tokA")) db0) 100)).1
  = Some None.
Proof.
  destruct (destroyed_session_is_invalid jwt0 "tokA" db0) as [_ H].
  destruct (H (set_sessions (filter (λ s, session_token s ≠ "tokA")) db0) eq_refl)
    as (_ & _ & Hv).
  apply Hv; [|reflexivity].
  repeat (apply Forall_cons_2; [by intros ?|]). apply Forall_nil_2.
Defined.

(** X19. [destroyAllSessions] is never rejected and, on a well-formed
    session table, signs out the account and nobody else: afterwards a
    token is known exactly if it was known before and its session belongs
    to another account, and it then finds the same session; no token of
    the account validates any more. *)
Theorem destroy_all_sessions_signs_out jwtVerify userId db :
  sessions_ok db →
  ∃ db', destroyAllSessions userId db = Some (tt, db')
    ∧ (∀ token s, sessionRow db' token = Some s
         ↔ sessionRow db token = Some s ∧ session_userId s ≠ userId)
    ∧ ∀ token s sched w,
        sessionRow db token = Some s → session_userId s = userId →
        storeKept sched → store w = db' →
        (run (validateSession jwtVerify token) sched w).1 = Some None.
Proof.
  intros (_ & Htok & _). eexists. split; [reflexivity|].
  assert (Hrow : ∀ token,
            sessionRow (set_sessions (filter (λ s, session_userId s ≠ userId)) db) token
            = s ← sessionRow db token;
              if decide (session_userId s ≠ userId) then Some s else None).
  { intros token. by apply (sessionRow_filter (λ s, session_userId s ≠ userId)). }
  split.
  - intros token s. rewrite Hrow. destruct (sessionRow db token) as [s'|]; cbn.
    + destruct (decide _) as [Hd|Hd]; split.
      * by intros [= ->].
      * by intros [[= ->] _].
      * done.
      * intros [[= ->] Hne]. by destruct Hd.
    + split; [done|]. by intros [? _].
  - intros token s sched w Hs Hu Hk Hw. apply validate_unknown; [done|].
    rewrite Hw, Hrow, Hs. cbn. by rewrite decide_False by (by intros ?).
Qed.

Lemma destroy_all_sessions_signs_out_witness :
  ∃ db', destroyAllSessions "u1" db0 = Some (tt, db')
         ∧ sessionRow db' "tokA" = None
         ∧ is_Some (sessionRow db' "tokOld").
Proof.
  destruct (destroy_all_sessions_signs_out jwt0 "u1" db0 db0_sessions_ok)
    as (db' & Hd & Hrow & _).
  exists db'. split; [exact Hd|]. split.
  - destruct (sessionRow db' "tokA") as [s|] eqn:Hs; [|reflexivity].
    apply Hrow in Hs as [Hs Hne]. vm_compute in Hs. by simplify_eq.
  - eexists. apply Hrow. split; [reflexivity|]. cbn. discriminate.
Defined.

(** X20. The cleanup of expired sessions is never rejected, leaves no
    expired session behind, deletes nothing else, and is invisible to
    [validateSession]: on a well-formed session table, the answer to any
    token at the time of the cleanup is the same with and without it. *)
Theorem cleanup_is_transparent jwtVerify token sched sched' w :
  sessions_ok (store w) →
  ∃ db', cleanupExpiredSessions (clock w) (store w) = Some (tt, db')
    ∧ sessions db' = filter (λ s, ¬ session_expiresAt s < clock w) (sessions (store w))
    ∧ (run (validateSession jwtVerify token) (quiet :: quiet :: sched)
           (mkWorld (gateway w) db' (clock w))).1
      = (run (validateSession jwtVerify token) (quiet :: quiet :: sched') w).1.
Proof.
  intros (_ & Htok & _). eexists. split; [reflexivity|]. split; [done|].
  rewrite !verdict_run. f_equal. unfold verdict. cbn -[sessionRow userById].
  destruct (jwtVerify (clock w) token) as [p0|]; cbn -[sessionRow userById]; [|done].
  rewrite (sessionRow_filter (λ s, ¬ session_expiresAt s < clock w)) by done.
  destruct (sessionRow (store w) token) as [s|]; cbn -[userById]; [|done].
  destruct (decide _) as [Hd|Hd]; cbn -[userById].
  - by rewrite !bool_decide_eq_false_2.
  - rewrite bool_decide_eq_true_2; [done|]. by apply dec_stable.
Qed.

Lemma cleanup_is_transparent_witness :
  (run (validateSession jwt0 "tokOld") [quiet; quiet]
       (mkWorld gateway0
          (set_sessions (filter (λ s, ¬ session_expiresAt s < 100)) db0) 100)).1
  = (run (validateSession jwt0 "tokOld") [quiet; quiet] world0).1.
Proof.
  destruct (cleanup_is_transparent jwt0 "tokOld" [] [] world0 db0_sessions_ok)
    as (db' & Hc & _ & Hv).
  injection Hc as <-. exact Hv.
Defined.

(** ** The HTTP guards *)

Lemma run_bind {A B} (m : Async A) (f : A → Async B) sched w :
  run (bind m f) sched w
  = match (run m sched w).1 with
    | Some a => run (f a) (rest m sched w) (run m sched w).2
    | None => (None, (run m sched w).2)
    end.
Proof.
  revert sched w. induction m as [a| |k IH|u k IH|k IH|R q k IH]; intros sched w; cbn; auto.
  destruct (fault _); [apply IH|]. destruct (exec _ _ _) as [[r db']|]; apply IH.
Qed.

Lemma run_tryCatch_catches {A} (m h : Async A) sched w :
  catches m →
  run (tryCatch m h) sched w = run m sched w
  ∧ rest (tryCatch m h) sched w = rest m sched w.
Proof.
  revert sched w. induction m as [a| |k IH|u k IH|k IH|R q k IH]; intros sched w Hc;
    cbn in *; auto; try done.
  destruct (fault _); [by apply IH|]. destruct (exec _ _ _) as [[r db']|]; by apply IH.
Qed.

Lemma rest_bind {A B} (m : Async A) (f : A → Async B) sched w :
  rest (bind m f) sched w
  = match (run m sched w).1 with
    | Some a => rest (f a) (rest m sched w) (run m sched w).2
    | None => rest m sched w
    end.
Proof.
  revert sched w. induction m as [a| |k IH|u k IH|k IH|R q k IH]; intros sched w; cbn; auto.
  destruct (fault _); [apply IH|]. destruct (exec _ _ _) as [[r db']|]; apply IH.
Qed.

(** A guard: what it does with the payload of a valid session. *)
Lemma guard_run jwtVerify token handler sched w refusal
    (choose : JWTPayload → Async (Response + JWTPayload)) :
  (∀ p, ∃ r, choose p = Ret r) →
  run (r ← tryCatch
             (if negb (truthy token)
              then Ret (inl (jsonError 401 "Authentication required"))
              else
                user ← validateSession jwtVerify (default EmptyString token);
                match user with
                | None => Ret (inl refusal)
                | Some p => choose p
                end)
             (Ret (inl (jsonError 500 "Internal server error")));
       match r with
       | inl response => Ret response
       | inr user => handler user
       end) sched w
  = afterSession jwtVerify token sched w refusal
      (λ p s w', match choose p with
                 | Ret (inl response) => (Some response, w')
                 | Ret (inr user) => run (handler user) s w'
                 | _ => (None, w')
                 end).
Proof.
  intros Hd. unfold afterSession.
  change (run (?m ≫= ?f) sched w) with (run (bind m f) sched w).
  rewrite run_bind.
  destruct (truthy token); cbn [negb]; [|done].
  set (body := validateSession jwtVerify (default EmptyString token) ≫= _).
  assert (Hc : catches body).
  { apply bind_catches; [apply validateSession_catches|].
    intros [p|]; [|done]. by destruct (Hd p) as [r ->]. }
  destruct (run_tryCatch_catches body (Ret (inl (jsonError 500 "Internal server error")))
              sched w Hc) as [-> ->].
  subst body. change (?m ≫= ?f) with (bind m f).
  rewrite run_bind, rest_bind.
  destruct (run (validateSession jwtVerify (default EmptyString token)) sched w)
    as [[[p|]|] w1] eqn:Hv; cbn.
  - destruct (Hd p) as [[response|user] ->]; done.
  - done.
  - by destruct (catches_run _ sched w (validateSession_catches jwtVerify
                                          (default EmptyString token))) as [? Hs];
      rewrite Hv in Hs.
Qed.

(** The second check of [middleware/adminAuth]'s guard, as the decision it
    takes on the payload of a valid session. *)
Lemma guard_run_email jwtVerify env token handler sched w :
  run (AdminAuth.withAdminAuth jwtVerify env token handler) sched w
  = afterSession jwtVerify token sched w (jsonError 401 "Invalid or expired session")
      (λ p s w',
         match (if negb (bool_decide (jwt_email p = AdminAuth.ADMIN_EMAIL env))
                then Ret (inl (jsonError 403 "Admin access required"))
                else if negb (jwt_isAdmin p)
                     then Ret (inl (jsonError 403 "Admin privileges required"))
                     else Ret (inr p)) with
         | Ret (inl response) => (Some response, w')
         | Ret (inr user) => run (handler user) s w'
         | _ => (None, w')
         end).
Proof.
  unfold AdminAuth.withAdminAuth. apply guard_run.
  intros p. destruct (bool_decide _); cbn; [|by eexists].
  destruct (jwt_isAdmin p); by eexists.
Qed.

(** X21. [withAuth].  Without a cookie the answer is 401 "Authentication
    required" and nothing ran.  With one, [validateSession] runs; if it
    gives no payload the answer is 401 "Invalid or expired session" with
    the cookie cleared; if it gives one, the outcome is that of the handler,
    started on that payload in the world [validateSession] left, whatever
    that outcome is: a response, or an exception, which then leaves
    [withAuth] uncaught.  The guard never answers 500 by itself. *)
Theorem with_auth_outcomes jwtVerify token handler sched w :
  run (withAuth jwtVerify token handler) sched w
  = afterSession jwtVerify token sched w
      (clearCookie (jsonError 401 "Invalid or expired session"))
      (λ p s w', run (handler p) s w').
Proof.
  unfold withAuth. rewrite (guard_run _ _ _ _ _ _ (λ p, Ret (inr p))); [done|].
  intros p. by eexists.
Qed.

Example with_auth_lets_exceptions_through :
  (run (withAuth jwt0 (Some "tokA") (λ _, Throw)) [] world0).1 = None
  ∧ (run (withAuth jwt0 (Some "tokOld") (λ _, Throw)) [] world0).1
    = Some (mkResponse 401 "Invalid or expired session" (Some (mkCookie EmptyString 0 None)))
  ∧ (run (withAuth jwt0 None (λ _, Throw)) [] world0).1
    = Some (mkResponse 401 "Authentication required" None).
Proof. evaluate. Qed.

(** X22. [withAdminAuth] of [middleware/auth] is [withAuth] with one more
    refusal: a valid session of an account without the administrator flag
    is answered 403 "Admin access required", in the world [validateSession]
    left; the handler runs on the sessions of flagged accounts only. *)
Theorem with_admin_auth_outcomes jwtVerify token handler sched w :
  run (withAdminAuth jwtVerify token handler) sched w
  = afterSession jwtVerify token sched w
      (clearCookie (jsonError 401 "Invalid or expired session"))
      (λ p s w', if jwt_isAdmin p then run (handler p) s w'
                 else (Some (jsonError 403 "Admin access required"), w')).
Proof.
  unfold withAdminAuth, withAuth.
  rewrite (guard_run _ _ _ _ _ _ (λ p, Ret (inr p))) by (intros p; by eexists).
  unfold afterSession.
  destruct (truthy token); [|done]. cbn zeta.
  destruct (run (validateSession _ _) _ _).1 as [[p|]|]; try done.
  by destruct (jwt_isAdmin p).
Qed.

(** X23. [withAdminAuth] of [middleware/adminAuth].  It refuses a missing
    cookie and an invalid session with 401, the latter without clearing the
    cookie; a valid session whose account address is not the configured
    administrator address with 403 "Admin access required", whatever its
    flag; one with that address but without the flag with 403 "Admin
    privileges required".  Only a session with both reaches the handler,
    whose outcome, exception included, is then the outcome of the guard. *)
Theorem email_guard_outcomes jwtVerify env token handler sched w :
  run (AdminAuth.withAdminAuth jwtVerify env token handler) sched w
  = afterSession jwtVerify token sched w (jsonError 401 "Invalid or expired session")
      (λ p s w',
         if bool_decide (jwt_email p = AdminAuth.ADMIN_EMAIL env)
         then if jwt_isAdmin p then run (handler p) s w'
              else (Some (jsonError 403 "Admin privileges required"), w')
         else (Some (jsonError 403 "Admin access required"), w')).
Proof.
  rewrite guard_run_email. unfold afterSession.
  destruct (truthy token); [|done]. cbn zeta.
  destruct (run (validateSession _ _) _ _).1 as [[p|]|]; try done.
  destruct (bool_decide _); [|done]. by destruct (jwt_isAdmin p).
Qed.

(** X24. The two guards called [withAdminAuth] are not the same, and the
    one of [middleware/adminAuth] is the stricter: on the same request in
    the same world, either both have the same outcome, or the guard of
    [middleware/adminAuth] refuses with 401 or 403, sets no cookie, and
    leaves the world as [validateSession] left it. *)
Theorem email_guard_is_stricter jwtVerify env token handler sched w :
  let a := run (AdminAuth.withAdminAuth jwtVerify env token handler) sched w in
  let b := run (withAdminAuth jwtVerify token handler) sched w in
  a = b
  ∨ ∃ response,
      a = (Some response,
           (run (validateSession jwtVerify (default EmptyString token)) sched w).2)
      ∧ res_status response ∈ [401; 403]
      ∧ res_authCookie response = None.
Proof.
  intros a b. subst a b. unfold withAdminAuth, withAuth.
  rewrite guard_run_email.
  rewrite (guard_run _ _ _ _ _ _ (λ p, Ret (inr p))) by (intros p; by eexists).
  unfold afterSession.
  destruct (truthy token); [|by left]. cbn zeta.
  destruct (run (validateSession _ _) _ _).1 as [[p|]|].
  - destruct (bool_decide _); cbn; [destruct (jwt_isAdmin p); cbn; [by left|]|];
      right; eexists; (split; [reflexivity|]); cbn; (split; [|done]);
      apply list_elem_of_In; cbn; tauto.
  - right. eexists. split; [reflexivity|]. cbn. split; [|done].
    apply list_elem_of_In; cbn; tauto.
  - right. eexists. split; [reflexivity|]. cbn. split; [|done].
    apply list_elem_of_In; cbn; tauto.
Qed.

Example flagged_account_with_another_address :
  let db := mkDB [mkUser "u1" "alice@example.org" "alice" false None None true]
                 [mkSession "se1" "tokA" "u1" 1000 0] [] [] [] [] [] 0 in
  let w := mkWorld gateway0 db 100 in
  let ok := mkResponse 200 "done" None in
  (run (withAdminAuth jwt0 (Some "tokA") (λ _, Ret ok)) [] w).1 = Some ok
  ∧ (run (AdminAuth.withAdminAuth jwt0 None (Some "tokA") (λ _, Ret ok)) [] w).1
    = Some (mkResponse 403 "Admin access required" None).
Proof. evaluate. Qed.

(** ** What stays of a connection, under every interleaving *)

Global Instance extends_refl : Reflexive extends.
Proof.
  intros g. split; [done|]. split.
  - intros sid s Hs. by exists s.
  - intros sid s Hs Hn. by rewrite Hn in Hs.
Qed.

Global Instance extends_trans : Transitive extends.
Proof.
  intros g1 g2 g3 (Ho1 & Hs1 & Hn1) (Ho2 & Hs2 & Hn2). split; [by etrans|]. split.
  - intros sid s Hs. destruct (Hs1 sid s Hs) as (s2 & Hs2' & Hu2 & Hc2).
    destruct (Hs2 sid s2 Hs2') as (s3 & Hs3 & Hu3 & Hc3).
    exists s3. split; [done|]. split; [congruence|auto].
  - intros sid s3 Hs3 Hn. destruct (sockets g2 !! sid) as [s2|] eqn:Hs2'.
    + destruct (Hs2 sid s2 Hs2') as (s3' & Hs3' & Hu3 & _).
      rewrite Hs3 in Hs3'. injection Hs3' as <-. rewrite Hu3. by apply (Hn1 sid).
    + by apply (Hn2 sid).
Qed.

Lemma push_extends to ev g : extends g (push to ev g).
Proof.
  split; [by apply prefix_app_r|]. split.
  - intros sid s Hs. by exists s.
  - intros sid s Hs Hn. cbn in Hs. by rewrite Hn in Hs.
Qed.

Lemma updSocket_extends sid f g :
  (∀ s, user (f s) = user s ∧ (connected s = false → connected (f s) = false)) →
  extends g (updSocket sid f g).
Proof.
  intros Hf. split; [done|]. split.
  - intros x s Hs. cbn. destruct (decide (x = sid)) as [->|Hx].
    + rewrite lookup_alter_eq, Hs. cbn. exists (f s). split; [done|]. apply Hf.
    + rewrite lookup_alter_ne by done. by exists s.
  - intros x s Hs Hn. cbn in Hs. destruct (decide (x = sid)) as [->|Hx].
    + by rewrite lookup_alter_eq, Hn in Hs.
    + rewrite lookup_alter_ne in Hs by done. by rewrite Hn in Hs.
Qed.

Lemma openSocket_extends u g : userId u = None → extends g (openSocket u g).
Proof.
  intros Hu. split; [done|]. split.
  - intros x s Hs. cbn. exists s. split; [|done].
    rewrite lookup_insert_ne; [done|]. intros <-.
    pose proof (is_fresh (dom (sockets g))) as Hfresh.
    apply Hfresh, elem_of_dom. by exists s.
  - intros x s Hs Hn. cbn in Hs.
    destruct (decide (x = fresh (dom (sockets g)))) as [->|Hx].
    + rewrite lookup_insert_eq in Hs. by injection Hs as <-.
    + rewrite lookup_insert_ne in Hs by done. by rewrite Hn in Hs.
Qed.

Ltac steady_step :=
  match goal with
  | |- _ ∧ _ => split
  | |- True => exact I
  | |- extends _ (push _ _ _) => apply push_extends
  | |- extends _ (updSocket _ _ _) => apply updSocket_extends; intros ?; by cbn
  | |- extends _ (openSocket _ _) => apply openSocket_extends; reflexivity
  | |- steady ?m =>
      match m with context [match ?x with _ => _ end] => destruct x end
  | |- ∀ _, _ => intro
  end.

Ltac steady_tac := cbn -[push updSocket openSocket]; repeat (steady_step; cbn -[push updSocket openSocket]).

Lemma handle_steady sid u ev : steady (handle sid u ev).
Proof.
  destruct ev; cbn [handle];
    [unfold joinServer|unfold joinChannel|unfold sendMessage|unfold typingStart
    |unfold typingStop|unfold addReaction]; steady_tac.
Qed.

Lemma onDisconnect_steady sid u : steady (onDisconnect sid u).
Proof. unfold onDisconnect. steady_tac. Qed.

Lemma connect_steady jwtVerify token : steady (connect jwtVerify token ≫= λ _, Ret tt).
Proof. unfold connect, authMiddleware, validateSession, verifyToken. steady_tac. Qed.

Lemma segment_steady m t g :
  steady m →
  extends g (segment m t g).1 ∧ from_option task_steady True (segment m t g).2.
Proof.
  revert g. induction m as [a| |k IH|f k IH|k IH|R q k IH]; intros g Hm; cbn in *.
  - done.
  - done.
  - by apply IH.
  - destruct Hm as [Hf Hk]. destruct (IH (f g) Hk) as [He Ht].
    split; [|done]. etrans; [apply Hf|exact He].
  - by apply IH.
  - done.
Qed.

Lemma fires_steady jwtVerify sys m w ts :
  Forall task_steady (parked sys) → fires jwtVerify sys m w ts →
  steady m ∧ Forall task_steady ts ∧ gateway w = gateway (world sys).
Proof.
  intros Hts Hf. destruct Hf as [sys sid s ev Hs Hc|sys token|sys sid s Hs Hc
    |sys i R q k r db' Hi He|sys i R q k Hi].
  - split; [apply handle_steady|done].
  - split; [apply connect_steady|done].
  - split; [apply onDisconnect_steady|done].
  - pose proof (Forall_lookup_1 _ _ _ _ Hts Hi) as Hk. cbn in Hk.
    split; [apply Hk|]. split; [by apply Forall_delete|done].
  - pose proof (Forall_lookup_1 _ _ _ _ Hts Hi) as Hk. cbn in Hk.
    split; [apply Hk|]. split; [by apply Forall_delete|done].
Qed.

Lemma step_steady jwtVerify sys sys' :
  Forall task_steady (parked sys) → step jwtVerify sys sys' →
  extends (gateway (world sys)) (gateway (world sys')) ∧ Forall task_steady (parked sys').
Proof.
  intros Hts Hstep. destruct Hstep as [sys m w ts Hf|sys db' t' Hdb]; [|done].
  destruct (fires_steady _ _ _ _ _ Hts Hf) as (Hm & Hts' & Hg).
  unfold advance. destruct (segment_steady m (clock w) (gateway w) Hm) as [He Hp].
  destruct (segment m (clock w) (gateway w)) as [g p]. cbn in *.
  rewrite <-Hg. split; [done|]. apply Forall_app. split; [done|].
  destruct p; cbn; [by constructor|constructor].
Qed.

Lemma reachable_steady jwtVerify sys :
  reachable jwtVerify sys →
  Forall task_steady (parked sys)
  ∧ ∀ sid s, sockets (gateway (world sys)) !! sid = Some s → userId (user s) = None.
Proof.
  induction 1 as [sys (Hs & Hp & _)|sys sys' _ [IH Hnone] Hstep].
  - rewrite Hp, Hs. split; [constructor|]. intros sid s Hl. by rewrite lookup_empty in Hl.
  - destruct (step_steady _ _ _ IH Hstep) as [(_ & Hkeep & Hnew) Hts]. split; [done|].
    intros sid s' Hs'. destruct (sockets (gateway (world sys)) !! sid) as [s|] eqn:Hs.
    + destruct (Hkeep sid s Hs) as (s'' & Hs'' & Hu & _).
      rewrite Hs' in Hs''. injection Hs'' as <-. rewrite Hu. by apply (Hnone sid).
    + by apply (Hnew sid).
Qed.

(** X25. What stays of a connection, whatever the interleaving of the
    handlers.  Along every step of the event loop from a reachable state,
    the log of emitted events only grows (nothing emitted is retracted),
    and every socket stays in the gateway with the identity it was admitted
    with; a socket that was closed is not opened again. *)
Theorem connections_keep_their_identity jwtVerify sys sys' :
  reachable jwtVerify sys → step jwtVerify sys sys' →
  outbox (gateway (world sys)) `prefix_of` outbox (gateway (world sys'))
  ∧ ∀ sid s, sockets (gateway (world sys)) !! sid = Some s →
      ∃ s', sockets (gateway (world sys')) !! sid = Some s'
            ∧ user s' = user s
            ∧ (connected s = false → connected s' = false).
Proof.
  intros Hreach Hstep. destruct (reachable_steady _ _ Hreach) as [Hts _].
  by destruct (step_steady _ _ _ Hts Hstep) as [(Ho & Hkeep & _) _].
Qed.

Lemma Some_default {A} (o : option A) (d : A) :
  match o with Some _ => true | None => false end = true → o = Some (default d o).
Proof. by destruct o. Qed.

(** Alice has connected, entered [c1], then [c2], and asked for [c1] again;
    the step in which the history read of that request resolves adds events
    to the log and leaves her socket its identity. *)
Lemma connections_keep_their_identity_witness :
  ∃ sys sys',
    play jwt0 aliceReturns sys0 = Some sys
    ∧ move jwt0 (Settle 0%nat false) sys = Some sys'
    ∧ outbox (gateway (world sys)) `prefix_of` outbox (gateway (world sys'))
    ∧ (length (outbox (gateway (world sys))) < length (outbox (gateway (world sys'))))%nat
    ∧ (user <$> sockets (gateway (world sys)) !! 0%nat) = Some (asSocketUser alice)
    ∧ ∃ s', sockets (gateway (world sys')) !! 0%nat = Some s'
            ∧ user s' = asSocketUser alice.
Proof.
  set (sys := default sys0 (play jwt0 aliceReturns sys0)).
  set (sys' := default sys0 (move jwt0 (Settle 0%nat false) sys)).
  assert (Hplay : play jwt0 aliceReturns sys0 = Some sys)
    by (apply Some_default; vm_compute; reflexivity).
  assert (Hmove : move jwt0 (Settle 0%nat false) sys = Some sys')
    by (apply Some_default; vm_compute; reflexivity).
  assert (Hreach : reachable jwt0 sys)
    by (apply (play_reachable jwt0 aliceReturns sys0 sys (sys0_reachable jwt0)), Hplay).
  assert (Hstep : step jwt0 sys sys')
    by (apply (move_step jwt0 (Settle 0%nat false)), Hmove).
  destruct (connections_keep_their_identity jwt0 sys sys' Hreach Hstep) as [Hlog Hkeep].
  exists sys, sys'. split; [exact Hplay|]. split; [exact Hmove|].
  split; [exact Hlog|]. split; [vm_compute; lia|]. split; [vm_compute; reflexivity|].
  edestruct (Hkeep 0%nat) as (s' & Hs' & Hu & _); [vm_compute; reflexivity|].
  exists s'. split; [exact Hs'|]. rewrite Hu. vm_compute. reflexivity.
Defined.

(** X15. No socket carries a [userId].  In every state the event loop can
    reach, the identity of every socket is as the middleware stored it,
    without the property [userId], and no listener has put one there: in
    every listener, whenever it runs, [socket.user.userId] reads
    [undefined]. *)
Theorem sockets_carry_no_userId jwtVerify sys :
  reachable jwtVerify sys →
  ∀ sid s, sockets (gateway (world sys)) !! sid = Some s → userId (user s) = None.
Proof. intros Hreach. by destruct (reachable_steady _ _ Hreach) as [_ Hnone]. Qed.

Lemma sockets_carry_no_userId_witness :
  ∃ sys s,
    play jwt0 aliceMoves sys0 = Some sys
    ∧ sockets (gateway (world sys)) !! 0%nat = Some s
    ∧ socketUser_id (user s) = "u1"
    ∧ userId (user s) = None.
Proof.
  set (sys := default sys0 (play jwt0 aliceMoves sys0)).
  assert (Hplay : play jwt0 aliceMoves sys0 = Some sys)
    by (apply Some_default; vm_compute; reflexivity).
  assert (Hreach : reachable jwt0 sys)
    by (apply (play_reachable jwt0 aliceMoves sys0 sys (sys0_reachable jwt0)), Hplay).
  destruct (sockets (gateway (world sys)) !! 0%nat) as [s|] eqn:Hs; [|by vm_compute in Hs].
  exists sys, s. split; [exact Hplay|]. split; [exact Hs|].
  split; [vm_compute in Hs; by injection Hs as <-|].
  exact (sockets_carry_no_userId jwt0 sys Hreach 0%nat s Hs).
Defined.
